(** * SwiftBase backend: transaction lifecycle, route comparison, rate cache

    A shallow embedding of

    - [src/routes/transactions.js]: the handlers [POST /compare-routes],
      [POST /create], [POST /:id/cancel] and the background function
      [processTransaction];
    - [src/services/payment.js]: the classes [ExchangeRateService] ([getRate],
      [getMockRate]), [PaymentService] and [XRPLService], the last two being
      the simulated adapters that [processTransaction] calls;
    - [database/init.sql]: the columns of the three tables the handlers touch.

    Conventions of the model.

    - Numbers.  A JavaScript number is taken at its exact rational value
      (type [Q]) and [+], [-], [*] are exact; the rounding of IEEE doubles after
      each operation is not part of the model.  Division is the one operation
      that leaves the rationals ([x / 0]); its result has type [jsnum].
      [toFixed(2)] rounds as ECMAScript prescribes (nearest multiple of 1/100,
      a tie goes to the larger magnitude) and prints plain decimal notation,
      as it does for every number below 10^21.
    - Requests.  A body field is [None] when the key is absent; a present
      [amount] is a JSON number, present currencies, route type and notes are
      JSON strings, present ids are JSON integers.
    - Storage.  [db.query] always answers; a table is a finite map from the
      [SERIAL] key to the row and a column keeps the value written to it;
      [NOW()] and [Date.now()] read one clock, which never goes back.
    - A handler runs to completion once started.  The background pipeline of
      a transaction is a separate step of the system: it ends with its one
      write, and the recipients it has read before may be older than that
      write. *)

From Stdlib Require Import QArith Qround Lqa ZArith Lia Ascii SpecFloat.
From stdpp Require Import gmap strings list pretty sorting.

Local Open Scope Q_scope.

(** * JavaScript numbers and their decimal text *)

Module Num.

(** [!x] for a number: only zero is falsy (NaN does not occur in JSON). *)
Definition falsy (x : Q) : bool := Qeq_bool x 0.

(** [x < y] on numbers. *)
Definition ltb (x y : Q) : bool := if Qlt_le_dec x y then true else false.

(** The integer [n] of [Number.prototype.toFixed] for two fraction digits and
    a non-negative [x]: [n / 100 - x] is as close to zero as possible, and of
    two such [n] the larger one is taken. *)
Definition cents (x : Q) : N := Z.to_N (Qfloor (x * 100 + (1 # 2))).

Definition digit (d : N) : ascii := pretty_N_char d.

(** Steps 8-10 of [toFixed]: the digits of [n], padded to three, with the
    point before the last two. *)
Definition fixed_text (n : N) : string :=
  pretty (n / 100)%N +:+ "." +:+
  String (digit (n mod 100 / 10)%N) (String (digit (n mod 10)%N) "").

(** [x.toFixed(2)] for a finite [x]. *)
Definition toFixed2 (x : Q) : string :=
  if ltb x 0 then "-" +:+ fixed_text (cents (- x)) else fixed_text (cents x).

(** A number read back from text or produced by a division: a finite value,
    an infinity or NaN. *)
Inductive jsnum : Type :=
  | Fin (q : Q)
  | Inf (negative : bool)
  | NaN.

(** [x - y]. *)
Definition sub (x y : jsnum) : jsnum :=
  match x, y with
  | Fin a, Fin b => Fin (a - b)
  | Fin _, Inf s => Inf (negb s)
  | Inf s, Fin _ => Inf s
  | Inf s, Inf t => if Bool.eqb s t then NaN else Inf s
  | _, _ => NaN
  end.

(** [x * y]. *)
Definition mul (x y : jsnum) : jsnum :=
  match x, y with
  | Fin a, Fin b => Fin (a * b)
  | Fin a, Inf s | Inf s, Fin a =>
      if Qeq_bool a 0 then NaN else Inf (xorb s (ltb a 0))
  | Inf s, Inf t => Inf (xorb s t)
  | _, _ => NaN
  end.

(** [x / y]; a zero divisor is the positive zero. *)
Definition div (x y : jsnum) : jsnum :=
  match x, y with
  | Fin a, Fin b =>
      if Qeq_bool b 0 then
        if Qeq_bool a 0 then NaN else Inf (ltb a 0)
      else Fin (a / b)
  | Fin _, Inf _ => Fin 0
  | Inf s, Fin b => Inf (xorb s (ltb b 0))
  | _, _ => NaN
  end.

(** [x > 0]; false of NaN. *)
Definition positive (x : jsnum) : bool :=
  match x with Fin q => ltb 0 q | Inf s => negb s | NaN => false end.

(** [x.toFixed(2)] in general: a value that is not finite prints as
    [ToString] has it. *)
Definition toFixed2_js (x : jsnum) : string :=
  match x with
  | Fin q => toFixed2 q
  | Inf false => "Infinity"
  | Inf true => "-Infinity"
  | NaN => "NaN"
  end.

(** The value of a decimal digit, by its character code (48 to 57). *)
Definition digit_value (c : ascii) : option N :=
  let code := N_of_ascii c in
  if (N.leb 48 code && N.leb code 57)%bool then Some (code - 48)%N else None.

(** The longest run of decimal digits at the head of [s]: its value on top of
    [acc], the number of digits read on top of [k], and the rest. *)
Fixpoint read_digits (s : string) (acc : N) (k : nat) : N * nat * string :=
  match s with
  | String c r =>
      match digit_value c with
      | Some d => read_digits r (acc * 10 + d)%N (S k)
      | None => (acc, k, s)
      end
  | EmptyString => (acc, k, s)
  end.

(** The unsigned part of a [StrDecimalLiteral] without exponent: [Infinity],
    or digits, then optionally a point and more digits, with at least one
    digit in all. *)
Definition read_unsigned (s : string) : jsnum :=
  if String.prefix "Infinity" s then Inf false else
  let '(ip, k, r) := read_digits s 0%N 0%nat in
  match r with
  | String "."%char f =>
      let '(fp, j, _) := read_digits f 0%N 0%nat in
      if (Nat.eqb k 0 && Nat.eqb j 0)%bool then NaN
      else Fin (Z.of_N (ip * 10 ^ N.of_nat j + fp) # Pos.of_nat (10 ^ j))
  | _ => if Nat.eqb k 0 then NaN else Fin (Z.of_N ip # 1)
  end.

Definition neg (x : jsnum) : jsnum :=
  match x with Fin q => Fin (- q) | Inf s => Inf (negb s) | NaN => NaN end.

(** [parseFloat(s)] on the texts that [toFixed] prints: an optional minus
    sign and an unsigned literal; anything else is NaN. *)
Definition parseFloat (s : string) : jsnum :=
  match s with
  | String "-"%char r => neg (read_unsigned r)
  | _ => read_unsigned s
  end.

(** The number [toFixed2] denotes. *)
Definition round2 (x : Q) : Q :=
  if ltb x 0 then - (Z.of_N (cents (- x)) # 100) else Z.of_N (cents x) # 100.

End Num.

(** * Route comparison: the body of [POST /compare-routes] *)

Module Routes.

(** A property that holds a number at first and a string later. *)
Inductive jsval : Type :=
  | VNum (q : Q)
  | VStr (s : string).

Record route : Type := {
  provider : string;
  type : string;
  amountSent : Q;
  fee : Q;
  exchangeRate : Q;
  estimatedTime : string;
  amountReceived : string;
  savings : jsval;
  recommended : bool;
  description : string;
  savingsPercent : option string
}.

(** The array literal [routes]. *)
Definition routes (amount rate : Q) : list route :=
  [ {| provider := "SwiftBridge XRPL";
       type := "xrpl_direct";
       amountSent := amount;
       fee := amount * 0.01;
       exchangeRate := rate * 0.997;
       estimatedTime := "5-10 minutes";
       amountReceived := Num.toFixed2 ((amount - amount * 0.01) * rate * 0.997);
       savings := VNum 0;
       recommended := true;
       description := "Fast blockchain transfer via XRPL network";
       savingsPercent := None |};
    {| provider := "Traditional Bank Transfer";
       type := "bank_transfer";
       amountSent := amount;
       fee := amount * 0.05 + 5;
       exchangeRate := rate * 0.97;
       estimatedTime := "1-3 business days";
       amountReceived :=
         Num.toFixed2 ((amount - (amount * 0.05 + 5)) * rate * 0.97);
       savings := VNum 0;
       recommended := false;
       description := "Standard international wire transfer";
       savingsPercent := None |};
    {| provider := "Competitor Service";
       type := "competitor";
       amountSent := amount;
       fee := amount * 0.015 + 3;
       exchangeRate := rate * 0.99;
       estimatedTime := "1 business day";
       amountReceived :=
         Num.toFixed2 ((amount - (amount * 0.015 + 3)) * rate * 0.99);
       savings := VNum 0;
       recommended := false;
       description := "Third-party remittance service";
       savingsPercent := None |} ].

(** [parseFloat(route.amountReceived)]. *)
Definition received (r : route) : Num.jsnum := Num.parseFloat (amountReceived r).



(** [parseFloat(routes[1].amountReceived)]. *)
Definition traditionalAmount (rs : list route) : Num.jsnum :=
  match rs !! 1%nat with
  | Some r => received r
  | None => Num.NaN
  end.

(** The callback of [routes.forEach]. *)
Definition set_savings (traditional : Num.jsnum) (r : route) : route :=
  let saved := Num.sub (received r) traditional in
  {| provider := provider r;
     type := type r;
     amountSent := amountSent r;
     fee := fee r;
     exchangeRate := exchangeRate r;
     estimatedTime := estimatedTime r;
     amountReceived := amountReceived r;
     savings := VStr (Num.toFixed2_js saved);
     recommended := recommended r;
     description := description r;
     savingsPercent :=
       Some (Num.toFixed2_js
               (Num.mul (Num.div saved traditional) (Num.Fin 100))) |}.

(** The comparator [(a, b) => parseFloat(b.amountReceived) -
    parseFloat(a.amountReceived)]. *)
Definition by_received (a b : route) : Num.jsnum :=
  Num.sub (received b) (received a).

Section Sort.
Context {A : Type} (comparefn : A → A → Num.jsnum).

(** [Array.prototype.sort(comparefn)]: a stable sort in which [x] comes after
    [y] only when [comparefn x y > 0]; a NaN from the comparator counts as
    zero.  [x] is placed in front of the first element that it does not have
    to follow. *)
Fixpoint place (x : A) (l : list A) : list A :=
  match l with
  | [] => [x]
  | y :: l' =>
      if Num.positive (comparefn x y) then y :: place x l' else x :: l
  end.

Definition sort (l : list A) : list A := foldr place [] l.
End Sort.

(** Lines 35-83: the quotes, their savings against the bank transfer, best
    amount first. *)
Definition compareRoutes (amount rate : Q) : list route :=
  let rs := routes amount rate in
  let traditional := traditionalAmount rs in
  sort by_received (set_savings traditional <$> rs).

End Routes.

(** * The rate service: [ExchangeRateService] *)

Module Rates.

Record quote : Type := {
  rate : Q;
  timestamp : Z;
  from : string;
  to : string;
  mock : bool
}.

Record entry : Type := {
  data : quote;
  stored : Z          (* the [timestamp] of the cache entry *)
}.

(** What [axios.get] does: it throws, or it answers with [data.result] and
    [data.conversion_rate]. *)
Inductive reply : Type :=
  | Failure (message : string)
  | Answer (result : string) (conversion_rate : Q).

(** The provider is outside the program: any function of the requested pair. *)
Definition provider : Type := string → string → reply.

(** The service object: its cache, and the list of pairs requested from the
    provider so far (newest first), which the program itself does not keep. *)
Record service : Type := {
  cache : gmap string entry;
  requested : list (string * string)
}.

Definition new : service := {| cache := ∅; requested := [] |}.

Definition cacheExpiry : Z := 60000.

Definition cacheKey (from to : string) : string := from +:+ "_" +:+ to.

Definition mockRates : gmap string Q :=
  list_to_map
    [ ("USD_MXN", 17.5); ("USD_PHP", 56.0); ("USD_INR", 83.0);
      ("USD_NGN", 1550.0) ].

Definition getMockRate (from to : string) (now : Z) : quote :=
  {| rate :=
       match mockRates !! cacheKey from to with
       | Some r => if Num.falsy r then 1.0 else r
       | None => 1.0
       end;
     timestamp := now;
     from := from;
     to := to;
     mock := true |}.

(** The [try] block of [getRate]: ask the provider; a reply other than
    ['success'] and a thrown error both end in [getMockRate], and only a
    successful reply is stored. *)
Definition fetch (from to : string) (up : provider) (later : Z)
    (s : service) : quote * service :=
  let s' := {| cache := cache s; requested := (from, to) :: requested s |} in
  match up from to with
  | Answer result conversion_rate =>
      if bool_decide (result = "success") then
        let result :=
          {| rate := conversion_rate; timestamp := later;
             from := from; to := to; mock := false |} in
        (result,
         {| cache := <[cacheKey from to := {| data := result; stored := later |}]>
                       (cache s');
            requested := requested s' |})
      else (getMockRate from to later, s')
  | Failure _ => (getMockRate from to later, s')
  end.

(** The condition [cached && Date.now() - cached.timestamp < this.cacheExpiry]:
    the data of a cache entry that is young enough, if there is one. *)
Definition fresh (from to : string) (now : Z) (s : service) : option quote :=
  match cache s !! cacheKey from to with
  | Some cached =>
      if bool_decide (now - stored cached < cacheExpiry)%Z
      then Some (data cached) else None
  | None => None
  end.

(** [getRate(from, to)].  [now] is the clock when the cache is consulted,
    [later] the clock once the provider has answered. *)
Definition getRate (from to : string) (now : Z) (up : provider) (later : Z)
    (s : service) : quote * service :=
  match fresh from to now s with
  | Some data => (data, s)
  | None => fetch from to up later s
  end.

End Rates.

(** * Storage: the tables of [database/init.sql] that the handlers use *)

Module Db.

Record recipient : Type := {
  r_user_id : Z;
  r_name : string;
  payout_type : string;
  bank_name : option string
}.

Record payment_method : Type := {
  pm_user_id : Z;
  pm_type : string
}.

(** A row of [transactions]; the key [id] is the key of the map.  A nullable
    column is an [option]. *)
Record transaction : Type := {
  sender_id : Z;
  recipient_id : Z;
  payment_method_id : Z;
  amount_sent : Q;
  currency_sent : string;
  amount_received : option Q;
  currency_received : string;
  exchange_rate : option Q;
  fee : option Q;
  xrpl_tx_hash : option string;
  status : string;
  route_type : option string;
  created_at : Z;
  completed_at : option Z;
  notes : option string
}.

Record database : Type := {
  recipients : gmap Z recipient;
  payment_methods : gmap Z payment_method;
  transactions : gmap Z transaction;
  transactions_id_seq : Z      (* the next value of the [SERIAL] key *)
}.

Definition empty : database :=
  {| recipients := ∅; payment_methods := ∅; transactions := ∅;
     transactions_id_seq := 1 |}.

(** [SELECT id FROM recipients WHERE id = $1 AND user_id = $2] has a row. *)
Definition owns_recipient (d : database) (id user : Z) : bool :=
  match recipients d !! id with
  | Some r => bool_decide (r_user_id r = user)
  | None => false
  end.

(** [SELECT id FROM payment_methods WHERE id = $1 AND user_id = $2] has a row. *)
Definition owns_payment_method (d : database) (id user : Z) : bool :=
  match payment_methods d !! id with
  | Some m => bool_decide (pm_user_id m = user)
  | None => false
  end.

(** [SELECT id, status FROM transactions WHERE id = $1 AND sender_id = $2]. *)
Definition owned_transaction (d : database) (id user : Z) : option transaction :=
  match transactions d !! id with
  | Some t => if bool_decide (sender_id t = user) then Some t else None
  | None => None
  end.

Definition with_transactions (d : database) (ts : gmap Z transaction)
    (seq : Z) : database :=
  {| recipients := recipients d; payment_methods := payment_methods d;
     transactions := ts; transactions_id_seq := seq |}.

(** The [INSERT INTO transactions ... RETURNING id] of [POST /create]: the
    eleven listed columns, [created_at] by its default [NOW()], the other
    columns NULL. *)
Definition insert_transaction (d : database) (now : Z)
    (sender recipient method : Z) (amount : Q) (sent received : string)
    (rate fee : Q) (status : string) (route : string) (notes : option string)
    : Z * database :=
  let id := transactions_id_seq d in
  let row :=
    {| sender_id := sender; recipient_id := recipient;
       payment_method_id := method; amount_sent := amount;
       currency_sent := sent; amount_received := None;
       currency_received := received; exchange_rate := Some rate;
       fee := Some fee; xrpl_tx_hash := None; status := status;
       route_type := Some route; created_at := now; completed_at := None;
       notes := notes |} in
  (id, with_transactions d (<[id := row]> (transactions d)) (id + 1)%Z).

(** [SET status = $1, amount_received = $2, xrpl_tx_hash = $3,
    completed_at = NOW()] on one row. *)
Definition set_completed (status : string) (received : Q) (hash : string)
    (now : Z) (t : transaction) : transaction :=
  {| sender_id := sender_id t; recipient_id := recipient_id t;
     payment_method_id := payment_method_id t; amount_sent := amount_sent t;
     currency_sent := currency_sent t; amount_received := Some received;
     currency_received := currency_received t;
     exchange_rate := exchange_rate t; fee := fee t;
     xrpl_tx_hash := Some hash; status := status;
     route_type := route_type t; created_at := created_at t;
     completed_at := Some now; notes := notes t |}.

(** [SET status = $1, notes = $2] on one row. *)
Definition set_status_notes (status : string) (text : string)
    (t : transaction) : transaction :=
  {| sender_id := sender_id t; recipient_id := recipient_id t;
     payment_method_id := payment_method_id t; amount_sent := amount_sent t;
     currency_sent := currency_sent t; amount_received := amount_received t;
     currency_received := currency_received t;
     exchange_rate := exchange_rate t; fee := fee t;
     xrpl_tx_hash := xrpl_tx_hash t; status := status;
     route_type := route_type t; created_at := created_at t;
     completed_at := completed_at t; notes := Some text |}.

(** [UPDATE transactions SET ... WHERE id = $n]: one statement, applied to the
    row with that key if there is one. *)
Definition update_transaction (f : transaction → transaction) (id : Z)
    (d : database) : database :=
  with_transactions d (alter f id (transactions d)) (transactions_id_seq d).

End Db.

(** * The simulated adapters: [PaymentService] and [XRPLService] *)

Module Adapters.

(** A call returns a value or throws an [Error] with a message. *)
Inductive outcome (A : Type) : Type :=
  | Returns (a : A)
  | Throws (message : string).
Arguments Returns {A} a.
Arguments Throws {A} message.

Definition bind {A B : Type} (x : outcome A) (k : A → outcome B) : outcome B :=
  match x with
  | Returns a => k a
  | Throws m => Throws m
  end.

Notation "'await' x := e 'in' k" := (bind e (λ x, k))
  (at level 10, x name, e at level 200, k at level 200, only parsing).

Record payment : Type := {
  success : bool;
  transactionId : string;
  paid_amount : Q;
  paid_currency : string
}.

Record remittance : Type := {
  xrplTxHash : string;
  explorerUrl : string;
  xrpAmount : Q;
  targetAmount : Q;
  ledger_fee : Q
}.

Record payout : Type := {
  payoutId : string;
  method : string;
  bankName : option string;
  pickupCode : option string;
  estimatedArrival : string
}.

(** What [processTransaction] requires of the two services it calls. *)
Class Services : Type := {
  processPayment : Z → Q → string → outcome payment;
  processRemittance :
    string → string → Q → string → string → Q → outcome remittance;
  processPayout : option Db.recipient → Q → string → outcome payout
}.

(** [XRPLService.convertToXRP] and [convertFromXRP]. *)
Definition convertToXRP (amount : Q) (currency : string) : Q :=
  let xrpPrice := 2.5 in amount / xrpPrice.

Definition convertFromXRP (xrpAmount : Q) (currency : string)
    (exchangeRate : Q) : Q :=
  let xrpPrice := 2.5 in
  let usdAmount := xrpAmount * xrpPrice in
  usdAmount * exchangeRate.

(** The object [XRPLService.generateTransaction] returns, without its random
    ledger index and its time stamp. *)
Record ledger_transaction : Type := {
  hash : string;
  tx_from : string;
  tx_to : string;
  tx_amount : Q;
  tx_fee : Q;
  tx_explorerUrl : string
}.

(** [stamp] stands for the text of [Date.now()] in base 36 and [random] for
    the nine characters drawn from [Math.random()]. *)
Definition generateTransaction (stamp random : string) (amount : Q)
    (from to : string) : ledger_transaction :=
  let hash := "XRPL_" +:+ stamp +:+ random in
  {| hash := hash; tx_from := from; tx_to := to; tx_amount := amount;
     tx_fee := 0.00001;
     tx_explorerUrl := "https://testnet.xrpl.org/transactions/" +:+ hash |}.

(** The services of the repository.  The texts [stamp] (of [Date.now()]) and
    [random] (of [Math.random()]) come from the environment; the delays of
    [simulateDelay] are time passing. *)
Definition simulated (stamp random : string) : Services :=
  {| processPayment := λ paymentMethodId amount currency,
       Returns {| success := true; transactionId := "pay_" +:+ stamp;
                  paid_amount := amount; paid_currency := currency |};
     processRemittance :=
       λ senderWallet recipientWallet amount fromCurrency toCurrency
         exchangeRate,
       let xrpAmount := convertToXRP amount fromCurrency in
       let tx :=
         generateTransaction stamp random xrpAmount senderWallet
           recipientWallet in
       let targetAmount := convertFromXRP xrpAmount toCurrency exchangeRate in
       Returns
         {| xrplTxHash := hash tx;
            explorerUrl := tx_explorerUrl tx;
            xrpAmount := xrpAmount;
            targetAmount := targetAmount;
            ledger_fee := tx_fee tx |};
     processPayout := λ recipientDetails amount currency,
       match recipientDetails with
       | None =>
           Throws "Cannot read properties of undefined (reading 'payout_type')"
       | Some r =>
           if bool_decide (Db.payout_type r = "bank") then
             Returns {| payoutId := "payout_" +:+ stamp;
                        method := "bank_transfer";
                        bankName := Db.bank_name r;
                        pickupCode := None;
                        estimatedArrival := "1-2 business days" |}
           else
             Returns {| payoutId := "payout_" +:+ stamp;
                        method := "cash_pickup";
                        bankName := None;
                        pickupCode := Some random;
                        estimatedArrival := "Available now" |}
       end |}.

End Adapters.

(** * The handlers of [routes/transactions.js] *)

Module Tx.
Import Adapters.

(** ** Requests and responses *)

Record compare_body : Type := {
  cmp_amount : option Q;
  cmp_fromCurrency : option string;
  cmp_toCurrency : option string
}.

Record create_body : Type := {
  recipientId : option Z;
  paymentMethodId : option Z;
  amount : option Q;
  fromCurrency : option string;
  toCurrency : option string;
  routeType : option string;
  notes : option string
}.

Inductive payload : Type :=
  | Error (error : string) (message : option string)
  | Compared (routes : list Routes.route) (midMarketRate : Q) (timestamp : Z)
  | Created (transactionId : Z) (status : string) (message : string)
      (estimatedCompletion : Z)
  | Cancelled (message : string) (transactionId : Z).

(** [res.status(code).json(body)]; [res.json(body)] answers 200. *)
Record response : Type := { code : Z; body : payload }.

Definition json (p : payload) : response := {| code := 200; body := p |}.
Definition fail (code : Z) (error : string) : response :=
  {| code := code; body := Error error None |}.

(** The operand of [!x]: the value when it is truthy.  An absent key, the
    number zero and the empty string are falsy. *)
Definition truthy_int (x : option Z) : option Z :=
  match x with
  | Some v => if bool_decide (v = 0%Z) then None else Some v
  | None => None
  end.

Definition truthy_num (x : option Q) : option Q :=
  match x with
  | Some v => if Num.falsy v then None else Some v
  | None => None
  end.

Definition truthy_text (x : option string) : option string :=
  match x with
  | Some v => if bool_decide (v = "") then None else Some v
  | None => None
  end.

(** ** The state the handlers share *)

(** The arguments of one call of [processTransaction] that has been started
    and has not finished. *)
Record job : Type := {
  j_senderId : Z;
  j_recipientId : Z;
  j_paymentMethodId : Z;
  j_amount : Q;
  j_fromCurrency : string;
  j_toCurrency : string;
  j_exchangeRate : Q;
  j_amountReceived : Q
}.

Record world : Type := {
  db : Db.database;
  rates : Rates.service;
  clock : Z;
  tasks : gmap Z job      (* running pipelines, by [transactionId] *)
}.

Definition initial (now : Z) : world :=
  {| db := Db.empty; rates := Rates.new; clock := now; tasks := ∅ |}.

(** ** [POST /compare-routes] *)

Definition post_compare_routes (b : compare_body) (up : Rates.provider)
    (w : world) : response * world :=
  match truthy_num (cmp_amount b), truthy_text (cmp_fromCurrency b),
        truthy_text (cmp_toCurrency b) with
  | Some amount, Some fromCurrency, Some toCurrency =>
      if Num.ltb amount 10 then
        (fail 400 "Minimum transfer amount is $10", w)
      else
        let '(rateData, rates') :=
          Rates.getRate fromCurrency toCurrency (clock w) up (clock w)
            (rates w) in
        let rate := Rates.rate rateData in
        (json (Compared (Routes.compareRoutes amount rate) rate (clock w)),
         {| db := db w; rates := rates'; clock := clock w; tasks := tasks w |})
  | _, _, _ =>
      (fail 400 "Missing required fields: amount, fromCurrency, toCurrency", w)
  end.

(** ** [POST /create] *)

Definition post_create (userId : Z) (b : create_body) (up : Rates.provider)
    (w : world) : response * world :=
  match truthy_int (recipientId b), truthy_int (paymentMethodId b),
        truthy_num (amount b), truthy_text (fromCurrency b),
        truthy_text (toCurrency b), truthy_text (routeType b) with
  | Some recipientId, Some paymentMethodId, Some amount, Some fromCurrency,
    Some toCurrency, Some routeType =>
      if (Num.ltb amount 10 || Num.ltb 10000 amount)%bool then
        (fail 400 "Amount must be between $10 and $10,000", w)
      else if negb (Db.owns_recipient (db w) recipientId userId) then
        (fail 404 "Recipient not found or does not belong to you", w)
      else if negb (Db.owns_payment_method (db w) paymentMethodId userId) then
        (fail 404 "Payment method not found or does not belong to you", w)
      else
        let '(rateData, rates') :=
          Rates.getRate fromCurrency toCurrency (clock w) up (clock w)
            (rates w) in
        let exchangeRate := Rates.rate rateData * 0.997 in
        let fee := amount * 0.01 in
        let amountReceived := (amount - fee) * exchangeRate in
        let '(transactionId, db') :=
          Db.insert_transaction (db w) (clock w) userId recipientId
            paymentMethodId amount fromCurrency toCurrency exchangeRate fee
            "processing" routeType (truthy_text (notes b)) in
        (json (Created transactionId "processing"
                 "Transaction initiated successfully"
                 (clock w + 10 * 60 * 1000)%Z),
         {| db := db'; rates := rates'; clock := clock w;
            tasks :=
              <[transactionId :=
                  {| j_senderId := userId; j_recipientId := recipientId;
                     j_paymentMethodId := paymentMethodId; j_amount := amount;
                     j_fromCurrency := fromCurrency;
                     j_toCurrency := toCurrency;
                     j_exchangeRate := exchangeRate;
                     j_amountReceived := amountReceived |}]> (tasks w) |})
  | _, _, _, _, _, _ => (fail 400 "Missing required fields", w)
  end.

(** ** [processTransaction] *)

(** The [try] block up to the last statement: the three adapter calls and
    the read of the recipient, from the table [seen] as it was at that moment;
    it yields what the final [UPDATE] needs. *)
Definition stages `{Services} (j : job) (seen : gmap Z Db.recipient)
    : outcome remittance :=
  await paymentResult :=
    processPayment (j_paymentMethodId j) (j_amount j) (j_fromCurrency j) in
  if negb (success paymentResult) then Throws "Payment processing failed"
  else
    await xrplResult :=
      processRemittance ("sender_wallet_" +:+ pretty (j_senderId j))
        ("recipient_wallet_" +:+ pretty (j_recipientId j)) (j_amount j)
        (j_fromCurrency j) (j_toCurrency j) (j_exchangeRate j) in
    let recipient := seen !! j_recipientId j in
    await payoutResult :=
      processPayout recipient (j_amountReceived j) (j_toCurrency j) in
    Returns xrplResult.

(** The write that ends the call: the [UPDATE] of step 5, or the one of the
    [catch] block. *)
Definition settle (transactionId : Z) (j : job) (now : Z)
    (r : outcome remittance) (d : Db.database) : Db.database :=
  match r with
  | Returns xrplResult =>
      Db.update_transaction
        (Db.set_completed "completed" (j_amountReceived j)
           (xrplTxHash xrplResult) now)
        transactionId d
  | Throws message =>
      Db.update_transaction
        (Db.set_status_notes "failed" ("Error: " +:+ message))
        transactionId d
  end.

Definition processTransaction `{Services} (transactionId : Z) (j : job)
    (seen : gmap Z Db.recipient) (w : world) : world :=
  {| db := settle transactionId j (clock w) (stages j seen)
             (db w);
     rates := rates w;
     clock := clock w;
     tasks := delete transactionId (tasks w) |}.

(** ** [POST /:id/cancel] *)

Definition post_cancel (userId : Z) (id : Z) (w : world) : response * world :=
  match Db.owned_transaction (db w) id userId with
  | None => (fail 404 "Transaction not found", w)
  | Some transaction =>
      if negb (bool_decide (Db.status transaction = "pending")) then
        (fail 400
           ("Cannot cancel transaction with status: " +:+
            Db.status transaction), w)
      else
        (json (Cancelled "Transaction cancelled successfully" id),
         {| db := Db.update_transaction
                    (Db.set_status_notes "failed" "Cancelled by user") id
                    (db w);
            rates := rates w; clock := clock w; tasks := tasks w |})
  end.

(** ** The running system *)

(** One step of the server: a request to one of the three handlers, the end
    of a running pipeline (with whatever the adapters did and whatever
    recipients it saw), a change of the recipients and payment methods (the
    routes of [routes/users.js]), or the passing of time. *)
Inductive step : world → world → Prop :=
  | step_compare b up w :
      step w (post_compare_routes b up w).2
  | step_create userId b up w :
      step w (post_create userId b up w).2
  | step_cancel userId id w :
      step w (post_cancel userId id w).2
  | step_pipeline (S : Services) id j seen w :
      tasks w !! id = Some j →
      step w (processTransaction id j seen w)
  | step_users rs ms w :
      step w {| db := {| Db.recipients := rs; Db.payment_methods := ms;
                         Db.transactions := Db.transactions (db w);
                         Db.transactions_id_seq :=
                           Db.transactions_id_seq (db w) |};
                rates := rates w; clock := clock w; tasks := tasks w |}
  | step_tick (elapsed : Z) w :
      (0 ≤ elapsed)%Z →
      step w {| db := db w; rates := rates w; clock := (clock w + elapsed)%Z;
                tasks := tasks w |}.

(** The states of a server started with empty tables. *)
Definition reachable (w : world) : Prop := ∃ now, rtc step (initial now) w.

End Tx.

(** * The names the specification gives to the failures *)

Module Spec.
Import Tx.

Definition MissingFields : response := fail 400 "Missing required fields".
Definition AmountOutOfRange : response :=
  fail 400 "Amount must be between $10 and $10,000".
Definition RecipientNotFound : response :=
  fail 404 "Recipient not found or does not belong to you".
Definition PaymentMethodNotFound : response :=
  fail 404 "Payment method not found or does not belong to you".
Definition InvalidStateTransition (current : string) : response :=
  fail 400 ("Cannot cancel transaction with status: " +:+ current).

(** All six required fields of a [POST /create] body are truthy, with these
    values. *)
Definition present (b : create_body) (recipient method : Z) (a : Q)
    (sent received route : string) : Prop :=
  truthy_int (recipientId b) = Some recipient
  ∧ truthy_int (paymentMethodId b) = Some method
  ∧ truthy_num (amount b) = Some a
  ∧ truthy_text (fromCurrency b) = Some sent
  ∧ truthy_text (toCurrency b) = Some received
  ∧ truthy_text (routeType b) = Some route.

(** One of them is absent or falsy. *)
Definition missing (b : create_body) : Prop :=
  truthy_int (recipientId b) = None
  ∨ truthy_int (paymentMethodId b) = None
  ∨ truthy_num (amount b) = None
  ∨ truthy_text (fromCurrency b) = None
  ∨ truthy_text (toCurrency b) = None
  ∨ truthy_text (routeType b) = None.

End Spec.

(** * A small server state used to run the definitions *)

Module Sample.
Import Tx.

Definition ana : Db.recipient :=
  {| Db.r_user_id := 1; Db.r_name := "Ana"; Db.payout_type := "bank";
     Db.bank_name := Some "BBVA" |}.

Definition card : Db.payment_method :=
  {| Db.pm_user_id := 1; Db.pm_type := "bank" |}.

(** User 1 has registered one recipient (id 7) and one payment method
    (id 3); no transaction yet. *)
Definition w0 : world :=
  {| db := {| Db.recipients := {[ 7%Z := ana ]};
              Db.payment_methods := {[ 3%Z := card ]};
              Db.transactions := ∅;
              Db.transactions_id_seq := 1 |};
     rates := Rates.new; clock := 1000; tasks := ∅ |}.

(** A provider that is down: [getRate] falls back to [getMockRate]. *)
Definition down : Rates.provider := λ _ _, Rates.Failure "ECONNREFUSED".

(** A provider that answers. *)
Definition live : Rates.provider := λ _ _, Rates.Answer "success" 17.2.

Definition send (a : Q) : create_body :=
  {| recipientId := Some 7%Z; paymentMethodId := Some 3%Z; amount := Some a;
     fromCurrency := Some "USD"; toCurrency := Some "MXN";
     routeType := Some "xrpl_direct"; notes := None |}.

(** The state after user 1 has asked to send 100 USD. *)
Definition w1 : world := (post_create 1 (send 100) down w0).2.

(** The pipeline of transaction 1, as [post_create] started it. *)
Definition job1 : job :=
  {| j_senderId := 1; j_recipientId := 7; j_paymentMethodId := 3;
     j_amount := 100; j_fromCurrency := "USD"; j_toCurrency := "MXN";
     j_exchangeRate := 17.5 * 0.997;
     j_amountReceived := (100 - 100 * 0.01) * (17.5 * 0.997) |}.

(** Adapters whose payment gateway refuses. *)
Definition refusing : Adapters.Services :=
  {| Adapters.processPayment := λ _ _ _, Adapters.Throws "card declined";
     Adapters.processRemittance :=
       Adapters.processRemittance (Services := Adapters.simulated "m1" "R");
     Adapters.processPayout :=
       Adapters.processPayout (Services := Adapters.simulated "m1" "R") |}.

End Sample.

(** * What holds of every state of the running system *)

Module Invariant.
Import Tx.

Record holds (w : world) : Prop := {
  (** keys come from the sequence *)
  fresh_keys : ∀ id t,
    Db.transactions (db w) !! id = Some t →
    (id < Db.transactions_id_seq (db w))%Z;
  (** the three statuses the program writes *)
  written_status : ∀ id t,
    Db.transactions (db w) !! id = Some t →
    Db.status t = "processing" ∨ Db.status t = "completed"
    ∨ Db.status t = "failed";
  (** no row was created in the future *)
  created_before : ∀ id t,
    Db.transactions (db w) !! id = Some t → (Db.created_at t ≤ clock w)%Z;
  (** a running pipeline has its row, still as [POST /create] wrote it *)
  running : ∀ id j,
    tasks w !! id = Some j →
    ∃ t, Db.transactions (db w) !! id = Some t
         ∧ Db.status t = "processing"
         ∧ Db.amount_received t = None
         ∧ Db.xrpl_tx_hash t = None
         ∧ Db.completed_at t = None
}.

(** Transaction [id] has row [t] and no pipeline is running for it. *)
Definition settled (id : Z) (t : Db.transaction) (w : world) : Prop :=
  Db.transactions (db w) !! id = Some t ∧ tasks w !! id = None.

End Invariant.

(** * The scenario of the specification in double precision

    The model computes with exact rationals.  For the one scenario the
    specification works out in figures, the same computation is run here on
    IEEE-754 binary64 values with the executable operations of [SpecFloat]
    (round to nearest, ties to even), to see that rounding does not change
    what is printed. *)

Module Binary64.

Definition prec : Z := 53.
Definition emax : Z := 1024.

(** The double nearest to [n / d]: what a decimal literal denotes. *)
Definition literal (n d : positive) : spec_float :=
  SFdiv prec emax (S754_finite false n 0) (S754_finite false d 0).

Definition times : spec_float → spec_float → spec_float := SFmul prec emax.
Definition minus : spec_float → spec_float → spec_float := SFsub prec emax.

(** The exact value of a finite double. *)
Definition exact (x : spec_float) : option Q :=
  match x with
  | S754_zero _ => Some 0
  | S754_finite s m e =>
      let v := inject_Z (Zpos m) * Qpower 2 e in
      Some (if s then - v else v)
  | _ => None
  end.

(** The direct route of [routes] for [amount = 100], [rate = 17.5]. *)
Definition amount : spec_float := literal 100 1.
Definition rate : spec_float := literal 175 10.
Definition fee : spec_float := times amount (literal 1 100).
Definition exchangeRate : spec_float := times rate (literal 997 1000).
Definition amountReceived : option string :=
  Num.toFixed2 <$>
    exact (times (times (minus amount (times amount (literal 1 100))) rate)
             (literal 997 1000)).

End Binary64.

(** * The rate service over many calls: [getBatchRates] *)

Module Batch.
Import Rates.

(** [getRate] up to its first [await]: the answer, when the cache has a fresh
    entry, or else the request that leaves for the provider. *)
Definition start (from to : string) (now : Z) (s : service)
    : option quote * service :=
  match fresh from to now s with
  | Some data => (Some data, s)
  | None =>
      (None, {| cache := cache s; requested := (from, to) :: requested s |})
  end.

(** [getRate] from the [await] on, once the provider has answered or the
    request has failed. *)
Definition resume (from to : string) (up : provider) (later : Z)
    (s : service) : quote * service :=
  match up from to with
  | Answer result conversion_rate =>
      if bool_decide (result = "success") then
        let result :=
          {| rate := conversion_rate; timestamp := later;
             from := from; to := to; mock := false |} in
        (result,
         {| cache := <[cacheKey from to := {| data := result; stored := later |}]>
                       (cache s);
            requested := requested s |})
      else (getMockRate from to later, s)
  | Failure _ => (getMockRate from to later, s)
  end.

(** [pairs.map(({ from, to }) => this.getRate(from, to))]: the calls are
    started one after the other, and each runs to its [await]. *)
Fixpoint start_all (pairs : list (string * string)) (now : Z) (s : service)
    : list (string * string * option quote) * service :=
  match pairs with
  | [] => ([], s)
  | (from, to) :: rest =>
      let '(answer, s1) := start from to now s in
      let '(answers, s2) := start_all rest now s1 in
      ((from, to, answer) :: answers, s2)
  end.

(** The waiting calls resume, call number [i] when the clock reads
    [later i]; [Promise.all] gives the results in the order of the calls.
    The replies are taken in the order of the requests; another order only
    changes which of two entries for one key stays in the cache. *)
Fixpoint resume_all (started : list (string * string * option quote))
    (i : nat) (up : provider) (later : nat → Z) (s : service)
    : list quote * service :=
  match started with
  | [] => ([], s)
  | (from, to, Some data) :: rest =>
      let '(results, s1) := resume_all rest (S i) up later s in
      (data :: results, s1)
  | (from, to, None) :: rest =>
      let '(result, s1) := resume from to up (later i) s in
      let '(results, s2) := resume_all rest (S i) up later s1 in
      (result :: results, s2)
  end.

(** [getBatchRates(pairs)]. *)
Definition getBatchRates (pairs : list (string * string)) (now : Z)
    (up : provider) (later : nat → Z) (s : service)
    : list quote * service :=
  let '(started, s1) := start_all pairs now s in
  resume_all started 0 up later s1.

(** One call of [getRate], with what the environment does during it. *)
Record call : Type := {
  c_from : string;
  c_to : string;
  c_now : Z;
  c_up : provider;
  c_later : Z
}.

(** The service after a series of calls of [getRate], one after the other. *)
Definition serve (s : service) (c : call) : service :=
  (getRate (c_from c) (c_to c) (c_now c) (c_up c) (c_later c) s).2.

Definition run (calls : list call) (s : service) : service :=
  foldl serve s calls.

(** Every entry of the cache is an answer of the provider, kept under the
    key of its own pair with the time of the answer. *)
Definition sound (s : service) : Prop :=
  ∀ key e,
    cache s !! key = Some e →
    mock (data e) = false
    ∧ stored e = timestamp (data e)
    ∧ key = cacheKey (from (data e)) (to (data e))
    ∧ (from (data e), to (data e)) ∈ requested s.

End Batch.

(** * Linking a payment method: the rest of [PaymentService] *)

Module Linking.
Import Adapters.

Record bankDetails : Type := {
  bd_bankName : string;
  bd_accountNumber : string;
  bd_routingNumber : string
}.

Record walletDetails : Type := {
  wd_address : string;
  wd_cryptoType : string
}.

(** [s.slice(-k)] for a positive [k]: from [max(length - k, 0)] to the end. *)
Definition slice_last (k : nat) (s : string) : string :=
  String.substring (String.length s - k) k s.

Record linked_bank : Type := {
  lb_success : bool;
  lb_paymentMethodId : string;
  lb_bankName : string;
  lb_last4 : string;
  lb_message : string
}.

(** [stamp] is the decimal text of [Date.now()]. *)
Definition linkBankAccount (stamp : string) (userId : Z) (d : bankDetails)
    : linked_bank :=
  {| lb_success := true;
     lb_paymentMethodId := "bank_" +:+ stamp;
     lb_bankName := bd_bankName d;
     lb_last4 := slice_last 4 (bd_accountNumber d);
     lb_message := "Bank account linked successfully" |}.

Definition isValidWalletAddress (address : string) : bool :=
  if (String.prefix "r" address
      && Nat.leb 25 (String.length address)
      && Nat.leb (String.length address) 35)%bool
  then true
  else if (String.prefix "0x" address
           && Nat.eqb (String.length address) 42)%bool
  then true
  else false.

Record linked_wallet : Type := {
  lw_success : bool;
  lw_paymentMethodId : string;
  lw_walletAddress : string;
  lw_cryptoType : string;
  lw_message : string
}.

Definition linkCryptoWallet (stamp : string) (userId : Z) (d : walletDetails)
    : outcome linked_wallet :=
  if negb (isValidWalletAddress (wd_address d)) then
    Throws "Invalid wallet address"
  else
    Returns {| lw_success := true;
               lw_paymentMethodId := "crypto_" +:+ stamp;
               lw_walletAddress := wd_address d;
               lw_cryptoType := wd_cryptoType d;
               lw_message := "Crypto wallet linked successfully" |}.

End Linking.

(** * What the rows and the running pipelines have in common *)

Module Ledger.
Import Tx.

(** The pipeline [j] is the one [POST /create] started for the row [t]. *)
Definition started_for (t : Db.transaction) (j : job) : Prop :=
  Db.sender_id t = j_senderId j
  ∧ Db.recipient_id t = j_recipientId j
  ∧ Db.payment_method_id t = j_paymentMethodId j
  ∧ Db.amount_sent t = j_amount j
  ∧ Db.currency_sent t = j_fromCurrency j
  ∧ Db.currency_received t = j_toCurrency j
  ∧ Db.exchange_rate t = Some (j_exchangeRate j)
  ∧ Db.fee t = Some (j_amount j * 0.01)
  ∧ j_amountReceived j
    = (j_amount j - j_amount j * 0.01) * j_exchangeRate j.

(** The row [t] is complete: fee, rate, amount received, hash and time of
    completion are all there and fit together. *)
Definition complete (now : Z) (t : Db.transaction) : Prop :=
  ∃ rate hash done,
    Db.fee t = Some (Db.amount_sent t * 0.01)
    ∧ Db.exchange_rate t = Some rate
    ∧ Db.amount_received t
      = Some ((Db.amount_sent t - Db.amount_sent t * 0.01) * rate)
    ∧ Db.xrpl_tx_hash t = Some hash
    ∧ Db.completed_at t = Some done
    ∧ (Db.created_at t ≤ done ≤ now)%Z.

(** The row [t] has no result yet. *)
Definition unfinished (t : Db.transaction) : Prop :=
  Db.amount_received t = None ∧ Db.xrpl_tx_hash t = None
  ∧ Db.completed_at t = None.

Record consistent (w : world) : Prop := {
  processing_runs : ∀ id t,
    Db.transactions (db w) !! id = Some t →
    Db.status t = "processing" ↔ is_Some (tasks w !! id);
  running_agrees : ∀ id t j,
    Db.transactions (db w) !! id = Some t →
    tasks w !! id = Some j → started_for t j;
  completed_complete : ∀ id t,
    Db.transactions (db w) !! id = Some t →
    Db.status t = "completed" → complete (clock w) t;
  others_open : ∀ id t,
    Db.transactions (db w) !! id = Some t →
    Db.status t ≠ "completed" → unfinished t;
  failed_notes : ∀ id t,
    Db.transactions (db w) !! id = Some t →
    Db.status t = "failed" →
    ∃ message, Db.notes t = Some ("Error: " +:+ message);
  created_columns : ∀ id t,
    Db.transactions (db w) !! id = Some t →
    (10 <= Db.amount_sent t ∧ Db.amount_sent t <= 10000)
    ∧ Db.fee t = Some (Db.amount_sent t * 0.01)
    ∧ is_Some (Db.exchange_rate t)
    ∧ is_Some (Db.route_type t)
}.

End Ledger.

(** * More states of the sample server *)

Module Sample2.
Import Tx.

(** The pipeline of transaction 1 has gone through, two seconds later. *)
Definition w2 : world :=
  processTransaction (H := Adapters.simulated "m1" "R") 1 Sample.job1
    (Db.recipients (db Sample.w1))
    {| db := db Sample.w1; rates := rates Sample.w1; clock := 3000;
       tasks := tasks Sample.w1 |}.


Definition quote_request : compare_body :=
  {| cmp_amount := Some 100; cmp_fromCurrency := Some "USD";
     cmp_toCurrency := Some "MXN" |}.

End Sample2.

(** * Reading transactions: [GET /:id/status], [GET /history], [GET /stats] *)

Module Http.

(** What a handler answers: [res.json(body)], or
    [res.status(code).json({ error })]. *)
Inductive answer (A : Type) : Type :=
  | Ok (body : A)
  | Refused (code : Z) (error : string).
Arguments Ok {A} body.
Arguments Refused {A} code error.

End Http.

Module Views.
Import Tx Http.

(** The body of [GET /:id/status].  [recipient] and [paymentMethod] are the
    rows the two [LEFT JOIN]s found, from which the response shows the name,
    email, country and payout type, and the type, bank name and last four
    digits; all of these are [null] when there is no such row.  The driver
    hands a [DECIMAL] over as text, so a stored amount is truthy whatever
    its value, and [parseFloat(null)] is NaN. *)
Record status_body : Type := {
  v_id : Z;
  v_status : string;
  v_amountSent : Q;
  v_currencySent : string;
  v_amountReceived : option Q;
  v_currencyReceived : string;
  v_fee : Num.jsnum;
  v_exchangeRate : option Q;
  v_recipient : option Db.recipient;
  v_paymentMethod : option Db.payment_method;
  v_xrplTxHash : option string;
  v_explorerUrl : option string;
  v_routeType : option string;
  v_createdAt : Z;
  v_completedAt : option Z;
  v_notes : option string
}.

Definition get_status (userId id : Z) (w : world) : answer status_body :=
  match Db.owned_transaction (db w) id userId with
  | None => Refused 404 "Transaction not found or does not belong to you"
  | Some transaction =>
      Ok {| v_id := id;
            v_status := Db.status transaction;
            v_amountSent := Db.amount_sent transaction;
            v_currencySent := Db.currency_sent transaction;
            v_amountReceived := Db.amount_received transaction;
            v_currencyReceived := Db.currency_received transaction;
            v_fee :=
              match Db.fee transaction with
              | Some fee => Num.Fin fee
              | None => Num.NaN
              end;
            v_exchangeRate := Db.exchange_rate transaction;
            v_recipient :=
              Db.recipients (db w) !! Db.recipient_id transaction;
            v_paymentMethod :=
              Db.payment_methods (db w) !! Db.payment_method_id transaction;
            v_xrplTxHash := Db.xrpl_tx_hash transaction;
            v_explorerUrl :=
              match truthy_text (Db.xrpl_tx_hash transaction) with
              | Some hash =>
                  Some ("https://testnet.xrpl.org/transactions/" +:+ hash)
              | None => None
              end;
            v_routeType := Db.route_type transaction;
            v_createdAt := Db.created_at transaction;
            v_completedAt := Db.completed_at transaction;
            v_notes := Db.notes transaction |}
  end.

(** ** [GET /stats] *)

Record stats_body : Type := {
  totalTransactions : nat;
  completedTransactions : nat;
  processingTransactions : nat;
  failedTransactions : nat;
  totalAmountSent : Q;
  totalFeesPaid : Q;
  averageTransactionAmount : Q;
  estimatedSavings : string
}.

(** The rows [WHERE sender_id = $1]. *)
Definition rows_of (userId : Z) (w : world) : list (Z * Db.transaction) :=
  filter (λ r, Db.sender_id r.2 = userId)
    (map_to_list (Db.transactions (db w))).

(** [COUNT( * ) FILTER (WHERE status = ...)]. *)
Definition count_status (status : string) (rows : list (Z * Db.transaction))
    : nat :=
  length (filter (λ r, Db.status r.2 = status) rows).

(** [SUM(column)] over the rows; a NULL adds nothing. *)
Definition total (column : Db.transaction → option Q)
    (rows : list (Z * Db.transaction)) : Q :=
  foldr (λ r acc, default 0 (column r.2) + acc) 0 rows.

Definition get_stats (userId : Z) (w : world) : stats_body :=
  let rows := rows_of userId w in
  let completed := filter (λ r, Db.status r.2 = "completed") rows in
  let total_sent := total (λ t, Some (Db.amount_sent t)) completed in
  {| totalTransactions := length rows;
     completedTransactions := count_status "completed" rows;
     processingTransactions := count_status "processing" rows;
     failedTransactions := count_status "failed" rows;
     totalAmountSent := total_sent;
     totalFeesPaid := total Db.fee completed;
     averageTransactionAmount :=
       match completed with
       | [] => 0
       | _ => total_sent / inject_Z (Z.of_nat (length completed))
       end;
     estimatedSavings := Num.toFixed2 (total_sent * 0.04) |}.

(** ** [GET /history] *)

Record history_query : Type := {
  limit : option nat;
  offset : option nat;
  status : option string
}.

Record history_item : Type := {
  h_id : Z;
  h_status : string;
  h_amountSent : Q;
  h_currencySent : string;
  h_amountReceived : option Q;
  h_currencyReceived : string;
  h_fee : Num.jsnum;
  h_exchangeRate : option Q;
  h_routeType : option string;
  h_recipient : option Db.recipient;
  h_createdAt : Z;
  h_completedAt : option Z
}.

Record pagination : Type := {
  p_total : nat;
  p_limit : nat;
  p_offset : nat;
  hasMore : bool
}.

(** The rows of the user, with the status asked for when one is given. *)
Definition selected (userId : Z) (q : history_query) (w : world)
    : list (Z * Db.transaction) :=
  match truthy_text (status q) with
  | Some status => filter (λ r, Db.status r.2 = status) (rows_of userId w)
  | None => rows_of userId w
  end.

(** [ORDER BY created_at DESC]. *)
Definition newer (a b : Z * Db.transaction) : Prop :=
  (Db.created_at b.2 ≤ Db.created_at a.2)%Z.

Global Instance newer_dec a b : Decision (newer a b).
Proof. unfold newer. apply _. Defined.

Definition item (w : world) (r : Z * Db.transaction) : history_item :=
  {| h_id := r.1;
     h_status := Db.status r.2;
     h_amountSent := Db.amount_sent r.2;
     h_currencySent := Db.currency_sent r.2;
     h_amountReceived := Db.amount_received r.2;
     h_currencyReceived := Db.currency_received r.2;
     h_fee := match Db.fee r.2 with
              | Some fee => Num.Fin fee
              | None => Num.NaN
              end;
     h_exchangeRate := Db.exchange_rate r.2;
     h_routeType := Db.route_type r.2;
     h_recipient := Db.recipients (db w) !! Db.recipient_id r.2;
     h_createdAt := Db.created_at r.2;
     h_completedAt := Db.completed_at r.2 |}.

(** The query of the page, [LIMIT] and [OFFSET] included.  The order of rows
    created at the same instant is the one the sort leaves them in; SQL does
    not fix it. *)
Definition page (userId : Z) (q : history_query) (w : world)
    : list (Z * Db.transaction) :=
  take (default 50%nat (limit q))
    (drop (default 0%nat (offset q))
       (merge_sort newer (selected userId q w))).

Definition get_history (userId : Z) (q : history_query) (w : world)
    : list history_item * pagination :=
  let totalCount := length (selected userId q w) in
  (item w <$> page userId q w,
   {| p_total := totalCount;
      p_limit := default 50%nat (limit q);
      p_offset := default 0%nat (offset q);
      hasMore :=
        Nat.ltb (default 0%nat (offset q) + default 50%nat (limit q))
          totalCount |}).

End Views.

(** * The rate routes: [routes/rates.js] *)

Module RateRoutes.
Import Rates Http.

(** ** [GET /:from/:to] *)

Record rate_body : Type := {
  rb_from : string;
  rb_to : string;
  rb_rate : Q;
  rb_timestamp : Z;
  rb_mock : bool
}.

Section Pair.
(** [String.prototype.toUpperCase] is left open. *)
Variable toUpperCase : string → string.

(** No quote has a [source], so the body never has that key. *)
Definition get_rate (from to : string) (now : Z) (up : provider) (later : Z)
    (s : service) : answer rate_body * service :=
  if (negb (Nat.eqb (String.length from) 3)
      || negb (Nat.eqb (String.length to) 3))%bool then
    (Refused 400 "Invalid currency code. Must be 3 letters (e.g., USD, MXN)",
     s)
  else
    let fromCurrency := toUpperCase from in
    let toCurrency := toUpperCase to in
    let '(rate, s') := getRate fromCurrency toCurrency now up later s in
    (Ok {| rb_from := fromCurrency;
           rb_to := toCurrency;
           rb_rate := Rates.rate rate;
           rb_timestamp := timestamp rate;
           rb_mock := mock rate || false |},
     s').
End Pair.

(** ** [POST /batch] *)







(** ** [POST /compare] *)

Record offer : Type := {
  o_provider : string;
  o_fee : Q;
  o_rate : Q;
  o_received : string;
  o_time : string
}.

(** The array literal [comparison]. *)
Definition offers (amount rate : Q) : list offer :=
  [ {| o_provider := "SwiftBase XRPL";
       o_fee := amount * 0.01;
       o_rate := rate * 0.997;
       o_received :=
         Num.toFixed2 ((amount - amount * 0.01) * rate * 0.997);
       o_time := "5-10 min" |};
    {| o_provider := "Western Union";
       o_fee := amount * 0.05 + 5;
       o_rate := rate * 0.96;
       o_received :=
         Num.toFixed2 ((amount - (amount * 0.05 + 5)) * rate * 0.96);
       o_time := "1-3 days" |};
    {| o_provider := "Wise";
       o_fee := amount * 0.015 + 3;
       o_rate := rate * 0.99;
       o_received :=
         Num.toFixed2 ((amount - (amount * 0.015 + 3)) * rate * 0.99);
       o_time := "1 day" |} ].

(** [(a, b) => parseFloat(b.received) - parseFloat(a.received)]. *)
Definition by_offer (a b : offer) : Num.jsnum :=
  Num.sub (Num.parseFloat (o_received b)) (Num.parseFloat (o_received a)).

Record comparison : Type := {
  c_amount : Q;
  c_fromCurrency : string;
  c_toCurrency : string;
  c_midMarketRate : Q;
  providers : list offer
}.

Definition post_compare (b : Tx.compare_body) (now : Z) (up : provider)
    (later : Z) (s : service) : answer comparison * service :=
  match Tx.truthy_num (Tx.cmp_amount b), Tx.truthy_text (Tx.cmp_fromCurrency b),
        Tx.truthy_text (Tx.cmp_toCurrency b) with
  | Some amount, Some fromCurrency, Some toCurrency =>
      let '(rateData, s') := getRate fromCurrency toCurrency now up later s in
      (Ok {| c_amount := amount;
             c_fromCurrency := fromCurrency;
             c_toCurrency := toCurrency;
             c_midMarketRate := Rates.rate rateData;
             providers :=
               Routes.sort by_offer (offers amount (Rates.rate rateData)) |},
       s')
  | _, _, _ => (Refused 400 "Missing required fields", s)
  end.

(** ** The order of the routes

    Express tries the routes of a router in the order of their registration
    and the first one whose method and path fit answers; no handler of this
    file passes the request on.  A path is the list of its segments.  A
    parameter fits any segment that is not empty; a literal fits its own
    text, whatever the case of the letters. *)

Inductive method : Type := GET | POST.

Inductive segment : Type :=
  | Lit (text : string)
  | Param (name : string).

Inductive handler : Type :=
  | RatePair | RateBatch | Supported | Calculate | RateHistory | Popular
  | Compare.

Definition table : list (method * list segment * handler) :=
  [ (GET, [Param "from"; Param "to"], RatePair);
    (POST, [Lit "batch"], RateBatch);
    (GET, [Lit "currencies"; Lit "supported"], Supported);
    (POST, [Lit "calculate"], Calculate);
    (GET, [Param "from"; Param "to"; Lit "history"], RateHistory);
    (GET, [Lit "corridors"; Lit "popular"], Popular);
    (POST, [Lit "compare"], Compare) ].

Definition lower (c : ascii) : ascii :=
  let code := N_of_ascii c in
  if (N.leb 65 code && N.leb code 90)%bool then ascii_of_N (code + 32)
  else c.

Fixpoint lowered (s : string) : string :=
  match s with
  | String c r => String (lower c) (lowered r)
  | EmptyString => EmptyString
  end.

Definition same_method (a b : method) : bool :=
  match a, b with GET, GET | POST, POST => true | _, _ => false end.

Fixpoint fits (pattern : list segment) (path : list string) : bool :=
  match pattern, path with
  | [], [] => true
  | Lit text :: pattern', x :: path' =>
      String.eqb (lowered text) (lowered x) && fits pattern' path'
  | Param _ :: pattern', x :: path' =>
      negb (String.eqb x "") && fits pattern' path'
  | _, _ => false
  end.

Fixpoint first_fit (routes : list (method * list segment * handler))
    (m : method) (path : list string) : option handler :=
  match routes with
  | [] => None
  | (m', pattern, h) :: rest =>
      if (same_method m' m && fits pattern path)%bool then Some h
      else first_fit rest m path
  end.

Definition dispatch (m : method) (path : list string) : option handler :=
  first_fit table m path.

End RateRoutes.

(** * Linking a payment method: [POST /payment-methods] of [routes/users.js] *)

Module Users.
Import Adapters Linking Http.

(** The body; the details, when present, are objects with strings in their
    fields. *)
Record method_body : Type := {
  mb_type : option string;
  mb_bankDetails : option bankDetails;
  mb_cryptoDetails : option walletDetails
}.

Inductive linked : Type :=
  | Bank (result : linked_bank)
  | Wallet (result : linked_wallet).

(** [INSERT INTO payment_methods (user_id, type, ...)]; [id] is the key the
    sequence of the table gives the row. *)
Definition insert_payment_method (d : Db.database) (id userId : Z)
    (type : string) : Db.database :=
  {| Db.recipients := Db.recipients d;
     Db.payment_methods :=
       <[id := {| Db.pm_user_id := userId; Db.pm_type := type |}]>
         (Db.payment_methods d);
     Db.transactions := Db.transactions d;
     Db.transactions_id_seq := Db.transactions_id_seq d |}.

(** The handler.  [stored] is what the [INSERT] does when it is reached: it
    returns, or it throws the error of the database (a text too long for its
    column).  Whatever is thrown inside [try] is answered with status 500 and
    the message of the error. *)
Definition post_payment_methods (stamp : string) (id userId : Z)
    (b : method_body) (stored : outcome unit) (d : Db.database)
    : answer linked * Db.database :=
  if bool_decide (mb_type b = Some "bank") then
    match mb_bankDetails b with
    | None =>
        (Refused 500
           "Cannot read properties of undefined (reading 'bankName')", d)
    | Some bankDetails =>
        let result := linkBankAccount stamp userId bankDetails in
        match stored with
        | Throws message => (Refused 500 message, d)
        | Returns _ =>
            (Ok (Bank result), insert_payment_method d id userId "bank")
        end
    end
  else if bool_decide (mb_type b = Some "crypto") then
    match mb_cryptoDetails b with
    | None =>
        (Refused 500
           "Cannot read properties of undefined (reading 'address')", d)
    | Some cryptoDetails =>
        match linkCryptoWallet stamp userId cryptoDetails with
        | Throws message => (Refused 500 message, d)
        | Returns result =>
            match stored with
            | Throws message => (Refused 500 message, d)
            | Returns _ =>
                (Ok (Wallet result),
                 insert_payment_method d id userId "crypto")
            end
        end
    end
  else (Refused 400 "Invalid payment method type", d).

End Users.

(** * Facts about numbers and their text *)

Section NumFacts.
Import Num.

Lemma ltb_true x y : ltb x y = true ↔ x < y.
Proof. unfold ltb. destruct (Qlt_le_dec x y); split; try done. lra. Qed.

Lemma ltb_false x y : ltb x y = false ↔ y <= x.
Proof. unfold ltb. destruct (Qlt_le_dec x y); split; try done. lra. Qed.










(** ** Reading back what [toFixed(2)] printed *)

Lemma digit_value_digit d : (d < 10)%N → digit_value (digit d) = Some d.
Proof.
  intros Hd. unfold digit.
  assert (d = 0 ∨ d = 1 ∨ d = 2 ∨ d = 3 ∨ d = 4 ∨ d = 5 ∨ d = 6 ∨ d = 7
          ∨ d = 8 ∨ d = 9)%N as Hc by lia.
  repeat destruct Hc as [-> | Hc]; try subst d; reflexivity.
Qed.

Lemma pretty_N_go_app x :
  ∀ s r, pretty_N_go x s +:+ r = pretty_N_go x (s +:+ r).
Proof.
  induction (N.lt_wf_0 x) as [x _ IH]. intros s r.
  destruct (decide (x = 0%N)) as [-> | Hx].
  - by rewrite !pretty_N_go_0.
  - rewrite !(pretty_N_go_step x) by lia.
    rewrite IH; [done | apply N.div_lt; lia].
Qed.

(** Reading the digits of [x] adds them to the accumulator. *)
Lemma read_digits_go x :
  ∀ s acc k, ∃ len : nat,
    ((0 < x)%N → (0 < len)%nat) ∧
    read_digits (pretty_N_go x s) acc k
    = read_digits s (acc * 10 ^ N.of_nat len + x)%N (k + len)%nat.
Proof.
  induction (N.lt_wf_0 x) as [x _ IH]. intros s acc k.
  destruct (decide (x = 0%N)) as [-> | Hx].
  - exists 0%nat. split; [lia |]. rewrite pretty_N_go_0. f_equal; [| lia].
    simpl. lia.
  - rewrite pretty_N_go_step by lia.
    destruct (IH (x `div` 10)%N (N.div_lt x 10 ltac:(lia) eq_refl)
                (String (pretty_N_char (x `mod` 10)) s) acc k)
      as (len & _ & ->).
    exists (S len). split; [lia |].
    cbn [read_digits]. fold (digit (x `mod` 10)).
    rewrite digit_value_digit by (apply N.mod_lt; lia).
    f_equal; [| lia].
    rewrite Nat2N.inj_succ, N.pow_succ_r'.
    pose proof (N.div_mod x 10 ltac:(lia)). lia.
Qed.

Lemma read_digits_pretty (n : N) r :
  ∃ len : nat, (0 < len)%nat ∧
    read_digits (pretty n +:+ r) 0 0 = read_digits r n len.
Proof.
  unfold pretty, pretty_N. case_decide as Hn.
  - subst n. exists 1%nat. split; [lia | reflexivity].
  - rewrite pretty_N_go_app. change ("" +:+ r) with r.
    destruct (read_digits_go n r 0%N 0%nat) as (len & Hlen & E).
    exists len. split; [lia |]. rewrite E. f_equal.
Qed.

Lemma cents_digits (n : N) :
  (n `div` 100 * 10 ^ 2 + ((n `mod` 100) `div` 10 * 10 + n `mod` 10) = n)%N.
Proof.
  pose proof (N.div_mod n 100 ltac:(lia)).
  pose proof (N.div_mod (n `mod` 100) 10 ltac:(lia)).
  assert ((n `mod` 100) `mod` 10 = n `mod` 10)%N as Hm.
  { change 100%N with (10 * 10)%N. rewrite N.Div0.mod_mul_r.
    rewrite N.mul_comm, N.Div0.mod_add. apply N.Div0.mod_mod. }
  change (10 ^ 2)%N with 100%N. lia.
Qed.

Lemma read_digits_fixed_text n :
  ∃ len : nat, (0 < len)%nat ∧
    read_digits (fixed_text n) 0 0
    = (n `div` 100, len,
       String "." (String (digit ((n `mod` 100) `div` 10))
                     (String (digit (n `mod` 10)) "")))%N.
Proof.
  unfold fixed_text.
  destruct (read_digits_pretty (n `div` 100)
              ("." +:+ String (digit ((n `mod` 100) `div` 10))
                         (String (digit (n `mod` 10)) "")))
    as (len & Hlen & ->).
  exists len. split; [done | reflexivity].
Qed.

(** The text of an amount starts with a digit. *)
Lemma fixed_text_head n :
  ∃ c r, fixed_text n = String c r ∧ is_Some (digit_value c).
Proof.
  destruct (read_digits_fixed_text n) as (len & Hlen & H).
  destruct (fixed_text n) as [| c r] eqn:E.
  - simpl in H. inversion H.
  - exists c, r. split; [done |]. simpl in H.
    destruct (digit_value c); [by eexists |]. inversion H. lia.
Qed.

Lemma read_unsigned_fixed_text n :
  read_unsigned (fixed_text n) = Fin (Z.of_N n # 100).
Proof.
  unfold read_unsigned.
  destruct (fixed_text_head n) as (c & r & E & Hd).
  assert (String.prefix "Infinity" (fixed_text n) = false) as ->.
  { rewrite E. cbn [String.prefix].
    destruct (ascii_dec "I" c) as [<- | _]; [| done].
    destruct Hd as [d Hd]. discriminate. }
  destruct (read_digits_fixed_text n) as (len & Hlen & ->).
  cbn [read_digits].
  rewrite !digit_value_digit.
  2: { apply N.mod_lt; lia. }
  2: { apply N.Div0.div_lt_upper_bound. pose proof (N.mod_lt n 100). lia. }
  destruct len; [lia |]. simpl Nat.eqb. simpl andb. cbv iota.
  change (N.of_nat 2) with 2%N.
  replace (0 * 10 + (n `mod` 100) `div` 10)%N
    with ((n `mod` 100) `div` 10)%N by lia.
  rewrite cents_digits. reflexivity.
Qed.

(** [parseFloat(x.toFixed(2))] is [x] rounded to hundredths. *)
Lemma parseFloat_toFixed2 x : parseFloat (toFixed2 x) = Fin (round2 x).
Proof.
  unfold toFixed2, round2. destruct (ltb x 0).
  - change (parseFloat ("-" +:+ fixed_text (cents (- x))))
      with (neg (read_unsigned (fixed_text (cents (- x))))).
    by rewrite read_unsigned_fixed_text.
  - unfold parseFloat.
    destruct (fixed_text_head (cents x)) as (c & r & E & [d Hd]).
    pose proof (read_unsigned_fixed_text (cents x)) as H. rewrite E in *.
    destruct c as [[] [] [] [] [] [] [] []]; try done.
Qed.

Example toFixed2_samples :
  toFixed2 1727.3025 = "1727.30" ∧ toFixed2 0.005 = "0.01"
  ∧ toFixed2 (-0.004) = "-0.00" ∧ toFixed2 (-12.345) = "-12.35"
  ∧ parseFloat "1727.30" = Fin (172730 # 100)
  ∧ parseFloat "-12.35" = Fin (- (1235 # 100))
  ∧ parseFloat "NaN" = NaN.
Proof. vm_compute. repeat split. Qed.

(** In double precision the scenario of the specification prints the same
    text as in the exact model: the fee is the double 1, the rate the double
    nearest to 17.4475, the amount reads 1727.30. *)
Example binary64_scenario :
  Binary64.fee = Binary64.literal 1 1
  ∧ Binary64.exchangeRate = Binary64.literal 174475 10000
  ∧ Binary64.amountReceived = Some "1727.30".
Proof. vm_compute. repeat split. Qed.

End NumFacts.

(** * Facts about the sort *)

Section SortFacts.
Import Num Routes.
Context {A : Type} (comparefn : A → A → jsnum) (key : A → Q) (P : A → Prop).
Hypothesis comparefn_key :
  ∀ a b, P a → P b → comparefn a b = Fin (key b - key a).

Lemma place_perm x l : place comparefn x l ≡ₚ x :: l.
Proof.
  induction l as [| y l IH]; simpl; [done |].
  destruct (positive (comparefn x y)); [| done].
  rewrite IH. apply Permutation_swap.
Qed.

Lemma sort_perm l : sort comparefn l ≡ₚ l.
Proof.
  induction l as [| x l IH]; simpl; [done |].
  by rewrite place_perm, IH.
Qed.



End SortFacts.



(** * Route comparison *)

Section RouteFacts.
Import Num Routes.





Lemma compareRoutes_perm amount rate :
  compareRoutes amount rate
  ≡ₚ set_savings (traditionalAmount (routes amount rate))
       <$> routes amount rate.
Proof. apply sort_perm. Qed.









End RouteFacts.

(** * The rate cache *)

Section RateFacts.
Import Rates.



(** Codes of different lengths that contain the separator can share a key. *)
Example cacheKey_separator : cacheKey "A_A" "A" = cacheKey "A" "A_A".
Proof. reflexivity. Qed.

Lemma fetch_requested from to up later s :
  requested (fetch from to up later s).2 = (from, to) :: requested s.
Proof.
  unfold fetch. destruct (up from to); [done |]. by case_bool_decide.
Qed.

Lemma getRate_fetched from to now up later s r :
  fresh from to now s = None →
  up from to = Answer "success" r →
  let result := {| rate := r; timestamp := later; from := from; to := to;
                   mock := false |} in
  getRate from to now up later s
  = (result,
     {| cache := <[cacheKey from to := {| data := result; stored := later |}]>
                   (cache s);
        requested := (from, to) :: requested s |}).
Proof.
  intros Hmiss Hup. unfold getRate, fetch. rewrite Hmiss, Hup.
  by rewrite bool_decide_eq_true_2.
Qed.



End RateFacts.

(** * The handlers *)

Section HandlerFacts.
Import Tx Spec.

Lemma post_create_present userId b up w rid pid a f t rt :
  present b rid pid a f t rt →
  post_create userId b up w =
    if (Num.ltb a 10 || Num.ltb 10000 a)%bool then (AmountOutOfRange, w)
    else if negb (Db.owns_recipient (db w) rid userId)
    then (RecipientNotFound, w)
    else if negb (Db.owns_payment_method (db w) pid userId)
    then (PaymentMethodNotFound, w)
    else
      let q := Rates.getRate f t (clock w) up (clock w) (rates w) in
      let exchangeRate := Rates.rate q.1 * 0.997 in
      let ins :=
        Db.insert_transaction (db w) (clock w) userId rid pid a f t
          exchangeRate (a * 0.01) "processing" rt (truthy_text (notes b)) in
      (json (Created ins.1 "processing" "Transaction initiated successfully"
               (clock w + 10 * 60 * 1000)%Z),
       {| db := ins.2; rates := q.2; clock := clock w;
          tasks :=
            <[ins.1 :=
                {| j_senderId := userId; j_recipientId := rid;
                   j_paymentMethodId := pid; j_amount := a;
                   j_fromCurrency := f; j_toCurrency := t;
                   j_exchangeRate := exchangeRate;
                   j_amountReceived := (a - a * 0.01) * exchangeRate |}]>
              (tasks w) |}).
Proof.
  intros (H1 & H2 & H3 & H4 & H5 & H6). unfold post_create.
  rewrite H1, H2, H3, H4, H5, H6.
  destruct (Num.ltb a 10 || Num.ltb 10000 a)%bool; [done |].
  destruct (negb (Db.owns_recipient (db w) rid userId)); [done |].
  destruct (negb (Db.owns_payment_method (db w) pid userId)); [done |].
  by destruct (Rates.getRate f t (clock w) up (clock w) (rates w)).
Qed.

Lemma post_create_missing userId b up w :
  missing b → post_create userId b up w = (MissingFields, w).
Proof.
  unfold missing, post_create. intros H.
  destruct (truthy_int (recipientId b)), (truthy_int (paymentMethodId b)),
    (truthy_num (amount b)), (truthy_text (fromCurrency b)),
    (truthy_text (toCurrency b)), (truthy_text (routeType b));
    try done; intuition discriminate.
Qed.




(** C3.  For a transaction that exists and belongs to the caller,
    [POST /:id/cancel] succeeds exactly when the status is [pending], and then
    the status becomes [failed]; with any other status, in particular
    [processing], [completed] or [failed], the answer is
    [InvalidStateTransition] naming the current status, and the state, the row
    included, is unchanged. *)
Theorem cancel_only_pending (userId id : Z) (w : world) (t : Db.transaction) :
  Db.owned_transaction (db w) id userId = Some t →
  let out := post_cancel userId id w in
  (code out.1 = 200%Z ↔ Db.status t = "pending")
  ∧ (Db.status t = "pending" →
     out.1 = json (Cancelled "Transaction cancelled successfully" id)
     ∧ ∃ t', Db.transactions (db out.2) !! id = Some t'
             ∧ Db.status t' = "failed")
  ∧ (Db.status t ≠ "pending" →
     out = (InvalidStateTransition (Db.status t), w))
  ∧ (Db.status t = "processing" ∨ Db.status t = "completed"
     ∨ Db.status t = "failed" →
     out.1 = InvalidStateTransition (Db.status t)
     ∧ Db.transactions (db out.2) !! id = Some t).
Proof.
  intros Hown out. subst out. unfold post_cancel. rewrite Hown.
  assert (Db.transactions (db w) !! id = Some t) as Hrow.
  { unfold Db.owned_transaction in Hown.
    destruct (Db.transactions (db w) !! id); [| done].
    by case_bool_decide; simplify_eq. }
  case_bool_decide as Hst; cbn [negb fst snd code json fail].
  - split; [done |]. split.
    + intros _. split; [done |].
      unfold Db.update_transaction. cbn [db Db.transactions Db.with_transactions].
      rewrite lookup_alter_eq, Hrow. by eexists.
    + split; [done |]. rewrite Hst. intros [? | [? | ?]]; discriminate.
  - split; [split; [discriminate | done] |].
    split; [done |]. split; [done |]. done.
Qed.

Lemma cancel_only_pending_witness :
  (post_cancel 1 1 Sample.w1).1 = InvalidStateTransition "processing".
Proof.
  destruct (cancel_only_pending 1 1 Sample.w1
              {| Db.sender_id := 1; Db.recipient_id := 7;
                 Db.payment_method_id := 3; Db.amount_sent := 100;
                 Db.currency_sent := "USD"; Db.amount_received := None;
                 Db.currency_received := "MXN";
                 Db.exchange_rate := Some (17.5 * 0.997);
                 Db.fee := Some (100 * 0.01); Db.xrpl_tx_hash := None;
                 Db.status := "processing";
                 Db.route_type := Some "xrpl_direct"; Db.created_at := 1000;
                 Db.completed_at := None; Db.notes := None |} eq_refl)
    as (_ & _ & _ & H).
  destruct H as [H _]; [by left |]. exact H.
Defined.



End HandlerFacts.

(** * The running system *)

Section SystemFacts.
Import Tx Spec Invariant Adapters.

Lemma present_or_missing b :
  missing b ∨ ∃ rid pid a f t rt, present b rid pid a f t rt.
Proof.
  unfold missing, present.
  destruct (truthy_int (recipientId b)), (truthy_int (paymentMethodId b)),
    (truthy_num (amount b)), (truthy_text (fromCurrency b)),
    (truthy_text (toCurrency b)), (truthy_text (routeType b));
    try (left; intuition congruence).
  right. by eexists _, _, _, _, _, _.
Qed.

(** What [POST /create] does to the state: nothing, or one new row with the
    next key, in status [processing], and its pipeline. *)
Lemma post_create_state userId b up w :
  (post_create userId b up w).2 = w
  ∨ ∃ row j s,
      (post_create userId b up w).2
      = {| db := Db.with_transactions (db w)
                   (<[Db.transactions_id_seq (db w) := row]>
                      (Db.transactions (db w)))
                   (Db.transactions_id_seq (db w) + 1)%Z;
           rates := s; clock := clock w;
           tasks := <[Db.transactions_id_seq (db w) := j]> (tasks w) |}
      ∧ Db.status row = "processing" ∧ Db.amount_received row = None
      ∧ Db.xrpl_tx_hash row = None ∧ Db.completed_at row = None
      ∧ Db.created_at row = clock w.
Proof.
  destruct (present_or_missing b) as [Hm | (rid & pid & a & f & t & rt & Hp)].
  { left. by rewrite post_create_missing. }
  rewrite (post_create_present _ _ _ _ _ _ _ _ _ _ Hp).
  destruct (Num.ltb a 10 || Num.ltb 10000 a)%bool; [by left |].
  destruct (negb (Db.owns_recipient (db w) rid userId)); [by left |].
  destruct (negb (Db.owns_payment_method (db w) pid userId)); [by left |].
  right. cbn [snd fst Db.insert_transaction].
  eexists _, _, _. split; [reflexivity | done].
Qed.

Lemma post_compare_routes_state b up w :
  db (post_compare_routes b up w).2 = db w
  ∧ clock (post_compare_routes b up w).2 = clock w
  ∧ tasks (post_compare_routes b up w).2 = tasks w.
Proof.
  unfold post_compare_routes.
  destruct (truthy_num (cmp_amount b)), (truthy_text (cmp_fromCurrency b)),
    (truthy_text (cmp_toCurrency b)); try done.
  destruct (Num.ltb _ _); [done |]. by destruct (Rates.getRate _ _ _ _ _ _).
Qed.

(** [POST /:id/cancel] changes nothing unless the row is [pending]. *)
Lemma post_cancel_state userId id w :
  (post_cancel userId id w).2 = w
  ∨ ∃ t, Db.transactions (db w) !! id = Some t ∧ Db.status t = "pending"
         ∧ code (post_cancel userId id w).1 = 200%Z.
Proof.
  unfold post_cancel, Db.owned_transaction.
  destruct (Db.transactions (db w) !! id) as [t |] eqn:E; [| by left].
  case_bool_decide; [| by left].
  case_bool_decide; [| by left]. right. by exists t.
Qed.

Lemma holds_initial now : holds (initial now).
Proof. split; intros id x H; simpl in H; by rewrite lookup_empty in H. Qed.

Lemma holds_same w w' :
  Db.transactions (db w') = Db.transactions (db w) →
  Db.transactions_id_seq (db w') = Db.transactions_id_seq (db w) →
  (clock w ≤ clock w')%Z → tasks w' = tasks w →
  holds w → holds w'.
Proof.
  intros Ht Hs Hc Hk [H1 H2 H3 H4]. split; rewrite ?Ht, ?Hs, ?Hk; try done.
  intros id t H. specialize (H3 id t H). lia.
Qed.

Lemma holds_step w w' : holds w → step w w' → holds w'.
Proof.
  intros Hw Hstep. destruct Hstep as [b up w | userId b up w | userId id w
                                    | S id j seen w Hj | rs ms w
                                    | elapsed w He].
  - destruct (post_compare_routes_state b up w) as (Hd & Hc & Ht).
    apply (holds_same w); rewrite ?Hd, ?Hc, ?Ht; done.
  - destruct (post_create_state userId b up w)
      as [-> | (row & j & s & -> & Hst & Har & Hx & Hco & Hcr)]; [done |].
    destruct Hw as [H1 H2 H3 H4].
    assert (Db.transactions (db w) !! Db.transactions_id_seq (db w) = None)
      as Hnew.
    { destruct (Db.transactions (db w) !! Db.transactions_id_seq (db w))
        as [t |] eqn:E; [| done]. apply H1 in E. lia. }
    split; cbn [db clock tasks Db.transactions Db.transactions_id_seq
                Db.with_transactions].
    + intros id t. rewrite lookup_insert. case_decide as Hd; [lia |].
      intros Hl. apply H1 in Hl. lia.
    + intros id t. rewrite lookup_insert. case_decide; [| by apply H2].
      intros [= <-]. by left.
    + intros id t. rewrite lookup_insert. case_decide; [| by apply H3].
      intros [= <-]. lia.
    + intros id j'. rewrite !lookup_insert. case_decide.
      * intros _. by exists row.
      * apply H4.
  - destruct (post_cancel_state userId id w) as [-> | (t & Ht & Hp & _)];
      [done |].
    destruct Hw as [_ H2 _ _]. destruct (H2 id t Ht) as [E | [E | E]];
      rewrite E in Hp; discriminate.
  - destruct Hw as [H1 H2 H3 H4].
    assert (∃ f, db (processTransaction id j seen w)
                 = Db.update_transaction f id (db w)
                 ∧ (∀ t, Db.status (f t) = "completed"
                         ∨ Db.status (f t) = "failed")
                 ∧ ∀ t, Db.created_at (f t) = Db.created_at t)
      as (f & Hdb & Hfs & Hfc).
    { unfold processTransaction, settle. cbn [db].
      destruct (stages j seen); eexists; (split; [reflexivity |]);
        split; intros t; auto. }
    split; rewrite ?Hdb;
      cbn [db clock tasks Db.transactions Db.transactions_id_seq
           Db.with_transactions processTransaction Db.update_transaction].
    + intros id' t. rewrite lookup_alter. case_decide; [| by apply H1].
      subst id'. destruct (Db.transactions (db w) !! id) eqn:E; [| done].
      intros _. by eapply H1.
    + intros id' t. rewrite lookup_alter. case_decide; [| by apply H2].
      destruct (Db.transactions (db w) !! id); [| done].
      intros [= <-]. destruct (Hfs t0); auto.
    + intros id' t. rewrite lookup_alter. case_decide; [| by apply H3].
      subst id'. destruct (Db.transactions (db w) !! id) eqn:E; [| done].
      intros [= <-]. rewrite Hfc. by eapply H3.
    + intros id' j'. rewrite lookup_delete. case_decide; [done |].
      intros Hj'. rewrite lookup_alter_ne by done. by eapply H4.
  - by apply (holds_same w).
  - apply (holds_same w); try done. simpl. lia.
Qed.

Lemma holds_rtc w w' : holds w → rtc step w w' → holds w'.
Proof. induction 2; eauto using holds_step. Qed.

Lemma holds_reachable w : reachable w → holds w.
Proof. intros [now H]. eapply holds_rtc; [apply holds_initial | done]. Qed.

(** A row whose pipeline has ended stays as it is. *)
Lemma settled_step id t w w' :
  holds w → settled id t w → step w w' → settled id t w'.
Proof.
  intros Hw [Hrow Hno] Hstep.
  destruct Hstep as [b up w | userId b up w | userId id' w
                    | S id' j seen w Hj | rs ms w | elapsed w He].
  - destruct (post_compare_routes_state b up w) as (Hd & Hc & Ht).
    unfold settled. by rewrite Hd, Ht.
  - destruct (post_create_state userId b up w)
      as [-> | (row & j & s & -> & _)]; [done |].
    pose proof (fresh_keys w Hw id t Hrow).
    split; cbn [db tasks Db.transactions Db.with_transactions];
      rewrite lookup_insert_ne by lia; done.
  - destruct (post_cancel_state userId id' w) as [-> | (t' & Ht & Hp & _)];
      [done |].
    destruct (written_status w Hw id' t' Ht) as [E | [E | E]];
      rewrite E in Hp; discriminate.
  - assert (id' ≠ id) by congruence.
    split; cbn [db tasks processTransaction].
    + unfold settle.
      destruct (stages j seen);
        cbn [Db.update_transaction Db.transactions Db.with_transactions];
        by rewrite lookup_alter_ne.
    + by rewrite lookup_delete_ne.
  - done.
  - done.
Qed.

Lemma settled_rtc id t w w' :
  holds w → settled id t w → rtc step w w' → settled id t w'.
Proof.
  intros Hw Hs Hr. induction Hr as [| w w1 w2 Hstep _ IH]; [done |].
  apply IH; [by eapply holds_step | by eapply settled_step].
Qed.
End SystemFacts.

(** * The life of a transaction *)

Section LifecycleFacts.
Import Tx Spec Invariant Adapters.

Lemma sample_reachable : reachable Sample.w1.
Proof.
  exists 1000%Z.
  eapply rtc_l.
  { apply (step_users {[ 7%Z := Sample.ana ]} {[ 3%Z := Sample.card ]}). }
  eapply rtc_l.
  { apply (step_create 1 (Sample.send 100) Sample.down). }
  apply rtc_refl.
Qed.

Lemma sample_task : tasks Sample.w1 !! 1%Z = Some Sample.job1.
Proof. reflexivity. Qed.

(** C1.  When the three stages of the pipeline of a transaction return, the
    call ends with one [UPDATE] of the row: status [completed], amount
    received and ledger hash set, [completed_at] the current time, everything
    else as it was; and [completed_at] is not before [created_at]. *)
Theorem pipeline_success (S : Services) (w : world) (id : Z) (j : job)
    (seen : gmap Z Db.recipient) (x : remittance) :
  reachable w →
  tasks w !! id = Some j →
  stages j seen = Returns x →
  let w' := processTransaction id j seen w in
  db w'
  = Db.update_transaction
      (Db.set_completed "completed" (j_amountReceived j) (xrplTxHash x)
         (clock w)) id (db w)
  ∧ ∃ t t',
      Db.transactions (db w) !! id = Some t
      ∧ Db.transactions (db w') !! id = Some t'
      ∧ Db.status t' = "completed"
      ∧ Db.amount_received t' = Some (j_amountReceived j)
      ∧ Db.xrpl_tx_hash t' = Some (xrplTxHash x)
      ∧ Db.completed_at t' = Some (clock w)
      ∧ Db.created_at t' = Db.created_at t
      ∧ (Db.created_at t' ≤ clock w)%Z.
Proof.
  intros Hw Hj Hx w'. subst w'. apply holds_reachable in Hw.
  unfold processTransaction. cbn [db]. rewrite Hx. cbn [settle].
  split; [done |].
  destruct (running w Hw id j Hj) as (t & Ht & _).
  exists t, (Db.set_completed "completed" (j_amountReceived j) (xrplTxHash x)
               (clock w) t).
  split; [done |]. split.
  { cbn [Db.update_transaction Db.transactions Db.with_transactions].
    by rewrite lookup_alter_eq, Ht. }
  repeat (split; [done |]). exact (created_before w Hw id t Ht).
Qed.

Lemma pipeline_success_witness :
  ∃ t t',
    Db.transactions (db Sample.w1) !! 1%Z = Some t
    ∧ Db.transactions
        (db (processTransaction (H := simulated "m1" "R") 1 Sample.job1
               (Db.recipients (db Sample.w1)) Sample.w1)) !! 1%Z = Some t'
    ∧ Db.status t' = "completed"
    ∧ Db.amount_received t'
      = Some (j_amountReceived Sample.job1)
    ∧ Db.xrpl_tx_hash t' = Some "XRPL_m1R"
    ∧ Db.completed_at t' = Some (clock Sample.w1)
    ∧ Db.created_at t' = Db.created_at t
    ∧ (Db.created_at t' ≤ clock Sample.w1)%Z.
Proof.
  apply (pipeline_success (simulated "m1" "R") Sample.w1 1 Sample.job1
           (Db.recipients (db Sample.w1))
           {| xrplTxHash := "XRPL_m1R";
              explorerUrl := "https://testnet.xrpl.org/transactions/XRPL_m1R";
              xrpAmount := convertToXRP 100 "USD";
              targetAmount :=
                convertFromXRP (convertToXRP 100 "USD") "MXN" (17.5 * 0.997);
              ledger_fee := 0.00001 |}
           sample_reachable sample_task eq_refl).
Defined.

(** C2.  When a stage of the pipeline of a transaction throws, the call ends
    with one [UPDATE] of the row that sets status [failed] and notes
    ["Error: " + message] and nothing else; other rows are untouched; and
    whatever the server does afterwards, the row stays as that update left it:
    status [failed], never [completed], no amount received, no ledger hash,
    no [completed_at]. *)
Theorem pipeline_failure (S : Services) (w : world) (id : Z) (j : job)
    (seen : gmap Z Db.recipient) (message : string) :
  reachable w →
  tasks w !! id = Some j →
  stages j seen = Throws message →
  let w' := processTransaction id j seen w in
  ∃ t,
    Db.transactions (db w) !! id = Some t
    ∧ db w'
      = Db.update_transaction
          (Db.set_status_notes "failed" ("Error: " +:+ message)) id (db w)
    ∧ (∀ id', id' ≠ id →
         Db.transactions (db w') !! id' = Db.transactions (db w) !! id')
    ∧ ∀ w'', rtc step w' w'' →
        ∃ t', Db.transactions (db w'') !! id = Some t'
              ∧ t' = Db.set_status_notes "failed" ("Error: " +:+ message) t
              ∧ Db.status t' = "failed"
              ∧ Db.notes t' = Some ("Error: " +:+ message)
              ∧ Db.amount_received t' = None
              ∧ Db.xrpl_tx_hash t' = None
              ∧ Db.completed_at t' = None.
Proof.
  intros Hw Hj Hx w'. apply holds_reachable in Hw.
  destruct (running w Hw id j Hj) as (t & Ht & _ & Har & Hh & Hc).
  assert (db w' = Db.update_transaction
            (Db.set_status_notes "failed" ("Error: " +:+ message)) id (db w))
    as Hdb.
  { subst w'. unfold processTransaction. cbn [db]. by rewrite Hx. }
  exists t. split; [done |]. split; [done |]. split.
  { intros id' Hne. rewrite Hdb.
    cbn [Db.update_transaction Db.transactions Db.with_transactions].
    by rewrite lookup_alter_ne. }
  intros w'' Hr.
  assert (settled id (Db.set_status_notes "failed" ("Error: " +:+ message) t)
            w') as Hs.
  { split.
    - rewrite Hdb.
      cbn [Db.update_transaction Db.transactions Db.with_transactions].
      by rewrite lookup_alter_eq, Ht.
    - subst w'. cbn [tasks processTransaction]. apply lookup_delete_eq. }
  assert (holds w') as Hw'.
  { eapply holds_step; [exact Hw |]. by apply step_pipeline. }
  destruct (settled_rtc _ _ _ _ Hw' Hs Hr) as [Hrow _].
  eexists. split; [exact Hrow |]. by repeat split.
Qed.

Lemma pipeline_failure_witness :
  ∃ t,
    Db.transactions (db Sample.w1) !! 1%Z = Some t
    ∧ db (processTransaction (H := Sample.refusing) 1 Sample.job1 ∅
            Sample.w1)
      = Db.update_transaction
          (Db.set_status_notes "failed" "Error: card declined") 1
          (db Sample.w1).
Proof.
  destruct (pipeline_failure Sample.refusing Sample.w1 1 Sample.job1 ∅
              "card declined" sample_reachable sample_task eq_refl)
    as (t & H1 & H2 & _).
  exists t. split; [exact H1 | exact H2].
Defined.

(** C10.  In every state of a server started with empty tables, a
    transaction that [POST /create] stores has status [processing]; no row has
    status [pending]; hence no cancel request succeeds, and none changes the
    state. *)
Theorem created_processing_never_cancellable (w : world) :
  reachable w →
  (∀ userId b up id st text eta,
     (post_create userId b up w).1 = json (Created id st text eta) →
     st = "processing"
     ∧ ∃ t, Db.transactions (db (post_create userId b up w).2) !! id = Some t
            ∧ Db.status t = "processing")
  ∧ (∀ id t, Db.transactions (db w) !! id = Some t → Db.status t ≠ "pending")
  ∧ (∀ userId id,
       code (post_cancel userId id w).1 ≠ 200%Z
       ∧ (post_cancel userId id w).2 = w).
Proof.
  intros Hw. apply holds_reachable in Hw. split; [| split].
  - intros userId b up id st text eta.
    destruct (present_or_missing b) as [Hm | (rid & pid & a & f & t & rt & Hp)].
    { by rewrite post_create_missing. }
    rewrite (post_create_present _ _ _ _ _ _ _ _ _ _ Hp).
    destruct (Num.ltb a 10 || Num.ltb 10000 a)%bool; [done |].
    destruct (negb (Db.owns_recipient (db w) rid userId)); [done |].
    destruct (negb (Db.owns_payment_method (db w) pid userId)); [done |].
    cbn [fst snd db Db.insert_transaction Db.with_transactions
         Db.transactions]. intros [= <- <- _ _]. split; [done |].
    rewrite lookup_insert_eq. by eexists.
  - intros id t Ht E. destruct (written_status w Hw id t Ht) as [H | [H | H]];
      rewrite E in H; discriminate.
  - intros userId id.
    destruct (post_cancel_state userId id w) as [E | (t & Ht & Hp & _)].
    + split; [| done]. unfold post_cancel in *.
      destruct (Db.owned_transaction (db w) id userId) as [t |] eqn:Ho;
        [| discriminate].
      case_bool_decide as Hst; [| discriminate]. exfalso.
      unfold Db.owned_transaction in Ho.
      destruct (Db.transactions (db w) !! id) as [t0 |] eqn:Ht; [| done].
      case_bool_decide; [| done]. injection Ho as ->.
      destruct (written_status w Hw id t Ht) as [H' | [H' | H']];
        rewrite Hst in H'; discriminate.
    + destruct (written_status w Hw id t Ht) as [H | [H | H]];
        rewrite Hp in H; discriminate.
Qed.

Lemma created_processing_never_cancellable_witness :
  code (post_cancel 1 1 Sample.w1).1 ≠ 200%Z
  ∧ (post_cancel 1 1 Sample.w1).2 = Sample.w1.
Proof.
  destruct (created_processing_never_cancellable Sample.w1 sample_reachable)
    as (_ & _ & H).
  apply H.
Defined.
End LifecycleFacts.

(** * More on the quotes of [POST /compare-routes] *)

Section QuoteFacts.
Import Num Routes.





Lemma cents_mono x y : 0 <= x → x <= y → (cents x ≤ cents y)%N.
Proof.
  intros Hx Hxy. unfold cents.
  assert (0 ≤ Qfloor (x * 100 + (1 # 2)))%Z as Hf.
  { change 0%Z with (Qfloor 0). apply Qfloor_resp_le. lra. }
  assert (Qfloor (x * 100 + (1 # 2)) ≤ Qfloor (y * 100 + (1 # 2)))%Z.
  { apply Qfloor_resp_le. lra. }
  lia.
Qed.

Lemma Qmake_100_le (a b : Z) : (a ≤ b)%Z → a # 100 <= b # 100.
Proof. intros H. unfold Qle. simpl. lia. Qed.

(** Rounding keeps the order. *)
Lemma round2_mono x y : x <= y → round2 x <= round2 y.
Proof.
  intros Hxy. unfold round2.
  destruct (ltb x 0) eqn:Ex, (ltb y 0) eqn:Ey.
  - apply ltb_true in Ex, Ey.
    pose proof (cents_mono (- y) (- x) ltac:(lra) ltac:(lra)).
    apply Qopp_le_compat, Qmake_100_le. lia.
  - apply Qle_trans with 0.
    + change 0 with (- 0). apply Qopp_le_compat. unfold Qle. simpl. lia.
    + unfold Qle. simpl. lia.
  - apply ltb_false in Ex. apply ltb_true in Ey. lra.
  - apply ltb_false in Ex, Ey.
    pose proof (cents_mono x y ltac:(lra) ltac:(lra)).
    apply Qmake_100_le. lia.
Qed.

Lemma direct_beats_bank amount rate :
  10 <= amount → 0 < rate →
  (amount - (amount * 0.05 + 5)) * rate * 0.97
  <= (amount - amount * 0.01) * rate * 0.997.
Proof.
  intros Ha Hr.
  assert (0 <= rate * (amount * (6553 # 100000) + (485 # 100))) as H.
  { apply Qmult_le_0_compat; lra. }
  lra.
Qed.

Lemma direct_beats_competitor amount rate :
  10 <= amount → 0 < rate →
  (amount - (amount * 0.015 + 3)) * rate * 0.99
  <= (amount - amount * 0.01) * rate * 0.997.
Proof.
  intros Ha Hr.
  assert (0 <= rate * (amount * (1188 # 100000) + (297 # 100))) as H.
  { apply Qmult_le_0_compat; lra. }
  lra.
Qed.


Lemma place_head {A} (comparefn : A → A → jsnum) x l :
  (∀ y, head l = Some y → positive (comparefn x y) = false) →
  place comparefn x l = x :: l.
Proof.
  destruct l as [| y l]; [done |]. intros H. simpl.
  by rewrite (H y eq_refl).
Qed.

(** X1.  For an amount of at least 10 and a positive mid-market rate, the
    first quote of the sorted list that [POST /compare-routes] returns is the
    direct XRPL route, the one that is marked as recommended. *)
Theorem direct_quote_listed_first (amount rate : Q) :
  10 <= amount → 0 < rate →
  ∃ r rest,
    compareRoutes amount rate = r :: rest
    ∧ type r = "xrpl_direct" ∧ recommended r = true.
Proof.
  intros Ha Hr. unfold compareRoutes.
  set (t := traditionalAmount (routes amount rate)).
  unfold routes. cbn [fmap list_fmap].
  lazymatch goal with
  | |- context [sort by_received (?d :: ?l)] =>
      set (first := d); set (others := l)
  end.
  change (sort by_received (first :: others))
    with (place by_received first (sort by_received others)).
  exists first, (sort by_received others). split; [| done].
  apply place_head. intros y Hy.
  assert (y ∈ others) as Hin.
  { rewrite <- (sort_perm by_received others). by apply head_Some_elem_of. }
  assert (received first
          = Fin (round2 ((amount - amount * 0.01) * rate * 0.997))) as Hf
      by apply parseFloat_toFixed2.
  unfold by_received. rewrite Hf.
  subst others. repeat (apply elem_of_cons in Hin as [-> | Hin]);
    [| | by apply elem_of_nil in Hin].
  - change (received _) with
      (parseFloat (toFixed2 ((amount - (amount * 0.05 + 5)) * rate * 0.97))).
    rewrite parseFloat_toFixed2. simpl. apply ltb_false.
    pose proof (round2_mono _ _ (direct_beats_bank amount rate Ha Hr)). lra.
  - change (received _) with
      (parseFloat
         (toFixed2 ((amount - (amount * 0.015 + 3)) * rate * 0.99))).
    rewrite parseFloat_toFixed2. simpl. apply ltb_false.
    pose proof (round2_mono _ _ (direct_beats_competitor amount rate Ha Hr)).
    lra.
Qed.

Lemma direct_quote_listed_first_witness :
  ∃ r rest,
    compareRoutes 10 0.0001 = r :: rest
    ∧ type r = "xrpl_direct" ∧ recommended r = true.
Proof.
  apply (direct_quote_listed_first 10 0.0001); unfold Qle, Qlt; simpl; lia.
Defined.




(** X3.  Whatever the amount and the rate, [POST /compare-routes] lists
    exactly the three routes xrpl_direct, bank_transfer and competitor, each
    once; every quote repeats the amount sent, and its savings have become
    text and its savings percentage is set. *)
Theorem compareRoutes_three_quotes (amount rate : Q) :
  type <$> compareRoutes amount rate
    ≡ₚ ["xrpl_direct"; "bank_transfer"; "competitor"]
  ∧ Forall (λ r, amountSent r = amount
                 ∧ (∃ s, savings r = VStr s)
                 ∧ is_Some (savingsPercent r))
      (compareRoutes amount rate).
Proof.
  split.
  - by rewrite compareRoutes_perm.
  - rewrite compareRoutes_perm. unfold routes.
    repeat constructor; by eexists.
Qed.


End QuoteFacts.

(** * The rate service over many calls *)

Section ServiceFacts.
Import Rates Batch.

(** [getRate] is its two halves, one after the other. *)
Lemma getRate_start_resume from to now up later s :
  getRate from to now up later s
  = match start from to now s with
    | (Some data, s1) => (data, s1)
    | (None, s1) => resume from to up later s1
    end.
Proof.
  unfold getRate, start, fetch, resume. destruct (fresh from to now s); [done |].
  cbn [cache requested]. destruct (up from to); [done |].
  by case_bool_decide.
Qed.

Lemma fetch_quote from to up later s s' :
  (fetch from to up later s).1 = (resume from to up later s').1.
Proof.
  unfold fetch, resume. destruct (up from to); [done |]. by case_bool_decide.
Qed.

Lemma resume_requested from to up later s :
  requested (resume from to up later s).2 = requested s.
Proof.
  unfold resume. destruct (up from to); [done |]. by case_bool_decide.
Qed.

Lemma fresh_cache from to now s s' :
  cache s = cache s' → fresh from to now s = fresh from to now s'.
Proof. unfold fresh. by intros ->. Qed.

Lemma start_cache from to now s : cache (start from to now s).2 = cache s.
Proof. unfold start. by destruct (fresh from to now s). Qed.

Lemma start_all_spec pairs now s :
  (start_all pairs now s).1
  = (λ p, (p.1, p.2, fresh p.1 p.2 now s)) <$> pairs
  ∧ cache (start_all pairs now s).2 = cache s
  ∧ requested (start_all pairs now s).2
    = reverse (filter (λ p, fresh p.1 p.2 now s = None) pairs) ++ requested s.
Proof.
  revert s. induction pairs as [| [f t] pairs IH]; intros s; [done |].
  cbn [start_all]. destruct (start f t now s) as [a s1] eqn:E.
  destruct (start_all pairs now s1) as [as' s2] eqn:E2.
  pose proof (IH s1) as (H1 & H2 & H3). rewrite E2 in H1, H2, H3.
  cbn [fst snd] in *.
  assert (cache s1 = cache s) as Hc.
  { change s1 with (a, s1).2. rewrite <- E. apply start_cache. }
  assert (∀ p, fresh p.1 p.2 now s1 = fresh p.1 p.2 now s) as Hf.
  { intros p. by apply fresh_cache. }
  split; [| split].
  - rewrite H1. cbn [fmap list_fmap fst snd]. f_equal.
    + unfold start in E. destruct (fresh f t now s); by inversion E.
    + apply list_fmap_ext. intros _ p _. by rewrite Hf.
  - by rewrite H2.
  - rewrite H3. rewrite filter_cons. cbn [fst snd].
    rewrite (list_filter_iff _ (λ p, fresh p.1 p.2 now s = None))
      by (intros p; by rewrite Hf).
    unfold start in E. destruct (fresh f t now s) eqn:Ef.
    + inversion E; subst. by rewrite decide_False.
    + inversion E; subst. rewrite decide_True by done.
      rewrite reverse_cons. cbn [requested]. by rewrite <- app_assoc.
Qed.

Lemma resume_all_spec started i up later s :
  (resume_all started i up later s).1
  = imap (λ k '(f, t, a),
            match a with
            | Some data => data
            | None => (fetch f t up (later (i + k)%nat) s).1
            end) started
  ∧ requested (resume_all started i up later s).2 = requested s.
Proof.
  revert i s. induction started as [| [[f t] [d |]] rest IH]; intros i s;
    [done | |]; cbn [resume_all].
  - destruct (resume_all rest (S i) up later s) as [rs s1] eqn:E.
    pose proof (IH (S i) s) as [H1 H2]. rewrite E in H1, H2.
    cbn [fst snd imap] in *. split; [| done]. f_equal.
    rewrite H1. apply imap_ext. intros k [[f' t'] a] _. simpl.
    by rewrite Nat.add_succ_r.
  - destruct (resume f t up (later i) s) as [r s1] eqn:E.
    destruct (resume_all rest (S i) up later s1) as [rs s2] eqn:E2.
    pose proof (IH (S i) s1) as [H1 H2]. rewrite E2 in H1, H2.
    cbn [fst snd imap] in *. split.
    + f_equal.
      * rewrite Nat.add_0_r. rewrite (fetch_quote f t up (later i) s s).
        by rewrite E.
      * rewrite H1. apply imap_ext. intros k [[f' t'] a] _. simpl.
        rewrite Nat.add_succ_r.
        destruct a; [done |].
        by rewrite (fetch_quote f' t' up _ s1 s), <- (fetch_quote f' t' up _ s s).
    + rewrite H2. change s1 with (r, s1).2. rewrite <- E.
      apply resume_requested.
Qed.





Lemma sound_new : sound new.
Proof. intros key e H. cbn [new cache] in H. by rewrite lookup_empty in H. Qed.

Lemma sound_serve s c : sound s → sound (serve s c).
Proof.
  intros Hs. unfold serve, getRate.
  destruct (fresh (c_from c) (c_to c) (c_now c) s); [done |].
  unfold fetch. destruct (c_up c (c_from c) (c_to c)) as [m | result r].
  - intros key e H. cbn [snd cache requested] in *.
    destruct (Hs key e H) as (? & ? & ? & ?).
    repeat (split; [done |]). by apply elem_of_cons; right.
  - case_bool_decide.
    + intros key e. cbn [snd cache requested].
      rewrite lookup_insert. case_decide as Hk.
      * intros [= <-]. cbn [data stored mock timestamp Rates.from Rates.to].
        repeat (split; [done |]). by apply elem_of_cons; left.
      * intros H'. destruct (Hs key e H') as (? & ? & ? & ?).
        repeat (split; [done |]). by apply elem_of_cons; right.
    + intros key e H'. cbn [snd cache requested] in *.
      destruct (Hs key e H') as (? & ? & ? & ?).
      repeat (split; [done |]). by apply elem_of_cons; right.
Qed.

Lemma sound_run calls s : sound s → sound (run calls s).
Proof.
  revert s. induction calls as [| c calls IH]; intros s Hs; [done |].
  apply IH. by apply sound_serve.
Qed.

Lemma serve_requested s c :
  (length (requested (serve s c)) ≤ S (length (requested s)))%nat.
Proof.
  unfold serve, getRate.
  destruct (fresh (c_from c) (c_to c) (c_now c) s); [simpl; lia |].
  rewrite fetch_requested. simpl. lia.
Qed.

Lemma run_requested calls s :
  (length (requested (run calls s)) ≤ length calls + length (requested s))%nat.
Proof.
  revert s. induction calls as [| c calls IH]; intros s; [simpl; lia |].
  simpl. pose proof (IH (serve s c)). pose proof (serve_requested s c). lia.
Qed.

(** X6.  After any series of calls of [getRate] on a new service, every cache
    entry is a quote the provider gave (never a mock quote), stored under the
    key of its own pair with the time of the quote, for a pair that was
    requested; the provider was asked at most once per call, and a cache hit
    never returns a mock quote. *)
Theorem cache_holds_provider_answers (calls : list call) :
  let s := run calls new in
  sound s
  ∧ (length (requested s) ≤ length calls)%nat
  ∧ ∀ from to now q, fresh from to now s = Some q → mock q = false.
Proof.
  intros s. pose proof (sound_run calls new sound_new) as Hs. fold s in Hs.
  split; [done |]. split.
  { pose proof (run_requested calls new) as H. simpl in H. subst s. lia. }
  intros from to now q Hhit. unfold fresh in Hhit.
  destruct (cache s !! cacheKey from to) as [e |] eqn:E; [| done].
  case_bool_decide; [| done]. injection Hhit as <-.
  by destruct (Hs _ _ E) as (? & _).
Qed.

Lemma cache_holds_provider_answers_witness :
  ∃ q,
    fresh "USD" "MXN" 1300
      (run [ {| c_from := "USD"; c_to := "MXN"; c_now := 1000;
                c_up := Sample.live; c_later := 1200 |} ] new) = Some q
    ∧ mock q = false.
Proof.
  exists {| rate := 17.2; timestamp := 1200; from := "USD"; to := "MXN";
            mock := false |}.
  split; [reflexivity |].
  destruct (cache_holds_provider_answers
              [ {| c_from := "USD"; c_to := "MXN"; c_now := 1000;
                   c_up := Sample.live; c_later := 1200 |} ]) as (_ & _ & H).
  apply (H "USD" "MXN" 1300%Z). reflexivity.
Defined.

Lemma getBatchRates_each (pairs : list (string * string)) (now : Z)
    (up : provider) (later : nat → Z) (s : service) :
  (getBatchRates pairs now up later s).1
  = imap (λ i p, (getRate p.1 p.2 now up (later i) s).1) pairs.
Proof.
  unfold getBatchRates.
  destruct (start_all_spec pairs now s) as (H1 & H2 & H3).
  destruct (start_all pairs now s) as [started s1]. cbn [fst snd] in *.
  destruct (resume_all_spec started 0 up later s1) as [H4 H5].
  destruct (resume_all started 0 up later s1) as [results s2].
  cbn [fst snd] in *.
  rewrite H4, H1, imap_fmap. apply imap_ext. intros i [f t] _.
  cbn [fst snd compose]. unfold getRate.
  destruct (fresh f t now s); [done |].
  by rewrite (fetch_quote f t up _ s1 s), <- (fetch_quote f t up _ s s).
Qed.

Lemma getBatchRates_requested (pairs : list (string * string)) (now : Z)
    (up : provider) (later : nat → Z) (s : service) :
  requested (getBatchRates pairs now up later s).2
  = reverse (filter (λ p, fresh p.1 p.2 now s = None) pairs) ++ requested s.
Proof.
  unfold getBatchRates.
  destruct (start_all_spec pairs now s) as (H1 & H2 & H3).
  destruct (start_all pairs now s) as [started s1]. cbn [fst snd] in *.
  destruct (resume_all_spec started 0 up later s1) as [H4 H5].
  destruct (resume_all started 0 up later s1) as [results s2].
  cbn [fst snd] in *. by rewrite H5, H3.
Qed.

(** X7.  [getBatchRates] returns one quote per pair, in the order of the
    pairs, and each is the quote that [getRate] alone would have returned from
    the state before the batch; the provider is asked once for every pair,
    repeated or not, that has no fresh cache entry when the batch starts. *)
Theorem getBatchRates_results (pairs : list (string * string)) (now : Z)
    (up : provider) (later : nat → Z) (s : service) :
  let out := getBatchRates pairs now up later s in
  out.1 = imap (λ i p, (getRate p.1 p.2 now up (later i) s).1) pairs
  ∧ length out.1 = length pairs
  ∧ requested out.2
    = reverse (filter (λ p, fresh p.1 p.2 now s = None) pairs) ++ requested s.
Proof.
  intros out. subst out. split; [apply getBatchRates_each |].
  split; [by rewrite getBatchRates_each, length_imap |].
  apply getBatchRates_requested.
Qed.

(** X8.  A batch that names the same uncached pair twice sends two requests to
    the provider, because both calls look at the cache before either answer is
    stored; the same two calls made one after the other, the second within the
    freshness window, send one. *)
Theorem batch_asks_twice_for_a_repeated_pair (from to : string)
    (now now2 later2 : Z) (up : provider) (later : nat → Z) (s : service)
    (r : Q) :
  fresh from to now s = None →
  up from to = Answer "success" r →
  (now2 - later 0%nat < cacheExpiry)%Z →
  requested (getBatchRates [(from, to); (from, to)] now up later s).2
  = (from, to) :: (from, to) :: requested s
  ∧ requested
      (run [ {| c_from := from; c_to := to; c_now := now; c_up := up;
                c_later := later 0%nat |};
             {| c_from := from; c_to := to; c_now := now2; c_up := up;
                c_later := later2 |} ] s)
    = (from, to) :: requested s.
Proof.
  intros Hmiss Hup Hwin. split.
  - rewrite getBatchRates_requested, !filter_cons. cbn [fst snd]. rewrite !decide_True by done.
    by rewrite filter_nil.
  - unfold run. cbn [foldl]. unfold serve at 2.
    cbn [c_from c_to c_now c_up c_later].
    rewrite (getRate_fetched from to now up (later 0%nat) s r Hmiss Hup).
    cbn [snd]. unfold serve. cbn [c_from c_to c_now c_up c_later].
    unfold getRate, fresh. cbn [cache]. rewrite lookup_insert_eq.
    cbn [stored]. by rewrite bool_decide_eq_true_2.
Qed.

Lemma batch_asks_twice_for_a_repeated_pair_witness :
  requested
    (getBatchRates [("USD", "MXN"); ("USD", "MXN")] 1000 Sample.live
       (λ i, 1200 + Z.of_nat i)%Z new).2
  = [("USD", "MXN"); ("USD", "MXN")].
Proof.
  apply (batch_asks_twice_for_a_repeated_pair "USD" "MXN" 1000 5000 5100
           Sample.live (λ i, 1200 + Z.of_nat i)%Z new 17.2);
    reflexivity.
Defined.

End ServiceFacts.

(** * Linking a payment method *)

Section LinkingFacts.
Import Adapters Linking.

Lemma substring_length (s : string) (n m : nat) :
  (n + m ≤ String.length s)%nat → String.length (String.substring n m s) = m.
Proof.
  revert n m. induction s as [| c s IH]; intros [| n] [| m] H; simpl in *;
    try done; try lia.
  - f_equal. apply (IH 0%nat). lia.
  - apply IH. lia.
  - apply IH. lia.
Qed.

Lemma substring_all (s : string) :
  String.substring 0 (String.length s) s = s.
Proof. induction s as [| c s IH]; [done |]. simpl. by f_equal. Qed.

Lemma substring_split (s : string) (n : nat) :
  (n ≤ String.length s)%nat →
  s = String.substring 0 n s +:+ String.substring n (String.length s - n) s.
Proof.
  revert n. induction s as [| c s IH]; intros [| n] Hn; simpl in *;
    try done; try lia.
  - by rewrite substring_all.
  - change (String c s
            = String c (String.substring 0 n s
                        +:+ String.substring n (String.length s - n) s)).
    f_equal. apply IH. lia.
Qed.

Lemma substring_over (s : string) (m : nat) :
  (String.length s ≤ m)%nat → String.substring 0 m s = s.
Proof.
  revert m. induction s as [| c s IH]; intros [| m] H; simpl in *;
    try done; try lia.
  f_equal. apply IH. lia.
Qed.

(** X9.  [linkBankAccount] returns as last4 a suffix of the account number, of
    four characters or of the whole number when that is shorter; nothing else
    of the number is returned. *)
Theorem linkBankAccount_keeps_last_four (stamp : string) (userId : Z)
    (d : bankDetails) :
  let number := bd_accountNumber d in
  let last4 := lb_last4 (linkBankAccount stamp userId d) in
  (∃ hidden, number = hidden +:+ last4)
  ∧ String.length last4 = Nat.min 4 (String.length number)
  ∧ ((String.length number ≤ 4)%nat → last4 = number).
Proof.
  intros number last4. subst last4. cbn [lb_last4 linkBankAccount].
  fold number. unfold slice_last.
  destruct (decide (String.length number ≤ 4)%nat) as [Hs | Hl].
  - replace (String.length number - 4)%nat with 0%nat by lia.
    rewrite substring_over by done.
    split; [by exists "" |]. split; [lia | done].
  - split.
    + exists (String.substring 0 (String.length number - 4) number).
      rewrite (substring_split number (String.length number - 4)) at 1 by lia.
      do 2 f_equal. lia.
    + split; [| lia]. rewrite substring_length by lia. lia.
Qed.

Lemma linkBankAccount_keeps_last_four_witness :
  lb_last4
    (linkBankAccount "1700000000000" 1
       {| bd_bankName := "Chase"; bd_accountNumber := "123";
          bd_routingNumber := "021000021" |})
  = "123".
Proof.
  destruct (linkBankAccount_keeps_last_four "1700000000000" 1
              {| bd_bankName := "Chase"; bd_accountNumber := "123";
                 bd_routingNumber := "021000021" |}) as (_ & _ & H).
  apply H. simpl. lia.
Defined.

Lemma prefix_head (p s s' : string) :
  String.substring 0 (String.length p) s = String.substring 0 (String.length p) s' →
  String.prefix p s = String.prefix p s'.
Proof.
  revert s s'. induction p as [| c p IH]; intros s s' H;
    [by destruct s, s' |].
  destruct s as [| a s], s' as [| a' s'];
    cbn [String.prefix String.substring String.length] in *; try done.
  injection H as -> H. destruct (ascii_dec c a'); [by apply IH | done].
Qed.

(** X10.  [isValidWalletAddress] depends only on the length of the address and
    on its first two characters: two addresses that agree on these are both
    accepted or both refused, whatever the other characters are. *)
Theorem wallet_check_reads_two_characters (a b : string) :
  String.length a = String.length b →
  String.substring 0 2 a = String.substring 0 2 b →
  isValidWalletAddress a = isValidWalletAddress b.
Proof.
  intros Hlen H2. unfold isValidWalletAddress. rewrite Hlen.
  rewrite (prefix_head "0x" a b) by done.
  rewrite (prefix_head "r" a b); [done |].
  destruct a as [| a1 a], b as [| b1 b];
    cbn [String.substring String.length] in *; try done.
  injection H2 as -> _. by destruct a, b.
Qed.

Lemma wallet_check_reads_two_characters_witness :
  isValidWalletAddress "0x????????????????????????????????????????"
  = isValidWalletAddress "0x52908400098527886E0F7030069857D2E4169EE7".
Proof.
  apply wallet_check_reads_two_characters; reflexivity.
Defined.

End LinkingFacts.

(** * Rows and pipelines in every state *)

Section LedgerFacts.
Import Tx Spec Invariant Adapters Ledger.

(** What a successful [POST /create] writes, in full. *)
Lemma post_create_cases userId b up w :
  (post_create userId b up w).2 = w
  ∨ ∃ rid pid a f t rt rate s,
      present b rid pid a f t rt
      ∧ (10 <= a ∧ a <= 10000)
      ∧ Db.owns_recipient (db w) rid userId = true
      ∧ Db.owns_payment_method (db w) pid userId = true
      ∧ Rates.getRate f t (clock w) up (clock w) (rates w) = (rate, s)
      ∧ post_create userId b up w
        = (json (Created (Db.transactions_id_seq (db w)) "processing"
                   "Transaction initiated successfully"
                   (clock w + 10 * 60 * 1000)%Z),
           {| db := Db.with_transactions (db w)
                      (<[Db.transactions_id_seq (db w) :=
                           {| Db.sender_id := userId; Db.recipient_id := rid;
                              Db.payment_method_id := pid;
                              Db.amount_sent := a; Db.currency_sent := f;
                              Db.amount_received := None;
                              Db.currency_received := t;
                              Db.exchange_rate :=
                                Some (Rates.rate rate * 0.997);
                              Db.fee := Some (a * 0.01);
                              Db.xrpl_tx_hash := None;
                              Db.status := "processing";
                              Db.route_type := Some rt;
                              Db.created_at := clock w;
                              Db.completed_at := None;
                              Db.notes := truthy_text (notes b) |}]>
                         (Db.transactions (db w)))
                      (Db.transactions_id_seq (db w) + 1)%Z;
              rates := s; clock := clock w;
              tasks :=
                <[Db.transactions_id_seq (db w) :=
                    {| j_senderId := userId; j_recipientId := rid;
                       j_paymentMethodId := pid; j_amount := a;
                       j_fromCurrency := f; j_toCurrency := t;
                       j_exchangeRate := Rates.rate rate * 0.997;
                       j_amountReceived :=
                         (a - a * 0.01) * (Rates.rate rate * 0.997) |}]>
                  (tasks w) |}).
Proof.
  destruct (present_or_missing b) as [Hm | (rid & pid & a & f & t & rt & Hp)].
  { left. by rewrite post_create_missing. }
  rewrite (post_create_present _ _ _ _ _ _ _ _ _ _ Hp).
  destruct (Num.ltb a 10 || Num.ltb 10000 a)%bool eqn:Er; [by left |].
  destruct (Db.owns_recipient (db w) rid userId) eqn:E1; [| by left].
  destruct (Db.owns_payment_method (db w) pid userId) eqn:E2; [| by left].
  right. cbn [negb].
  destruct (Rates.getRate f t (clock w) up (clock w) (rates w)) as [rate s]
    eqn:Eg.
  exists rid, pid, a, f, t, rt, rate, s.
  apply orb_false_iff in Er as [Er1 Er2].
  apply ltb_false in Er1, Er2.
  repeat (split; [done |]). reflexivity.
Qed.

Lemma consistent_initial now : consistent (initial now).
Proof. split; intros id t; simpl; by rewrite lookup_empty. Qed.

Lemma consistent_same w w' :
  Db.transactions (db w') = Db.transactions (db w) →
  (clock w ≤ clock w')%Z → tasks w' = tasks w →
  consistent w → consistent w'.
Proof.
  intros Ht Hc Hk [H1 H2 H3 H4 H5 H6]. split; rewrite ?Ht, ?Hk; try done.
  intros id t Hrow Hst.
  destruct (H3 id t Hrow Hst) as (r & h & d & ? & ? & ? & ? & ? & ?).
  exists r, h, d. repeat (split; [done |]). lia.
Qed.

Lemma consistent_step w w' :
  holds w → consistent w → step w w' → consistent w'.
Proof.
  intros Hw Hc Hstep.
  destruct Hstep as [b up w | userId b up w | userId id w
                    | S id j seen w Hj | rs ms w | elapsed w He].
  - destruct (post_compare_routes_state b up w) as (Hd & Hk & Ht).
    apply (consistent_same w); rewrite ?Hd, ?Hk, ?Ht; done.
  - destruct (post_create_cases userId b up w)
      as [-> | (rid & pid & a & f & t & rt & rate & s & _ & Hrange & _ & _ & _
                & E)];
      [done |].
    rewrite E. cbn [snd]. clear E.
    destruct Hc as [H1 H2 H3 H4 H5 H6].
    assert (∀ id row, Db.transactions (db w) !! id = Some row →
                      id ≠ Db.transactions_id_seq (db w)) as Hne.
    { intros id row Hrow ->. pose proof (fresh_keys w Hw _ _ Hrow). lia. }
    split; cbn [db clock tasks Db.transactions Db.with_transactions].
    + intros id row. rewrite !lookup_insert. case_decide as Hd.
      * intros [= <-]. cbn [Db.status]. split; [by eexists | done].
      * apply H1.
    + intros id row j. rewrite !lookup_insert. case_decide as Hd.
      * intros [= <-] [= <-]. by repeat split.
      * apply H2.
    + intros id row. rewrite lookup_insert. case_decide as Hd.
      * by intros [= <-].
      * apply H3.
    + intros id row. rewrite lookup_insert. case_decide as Hd.
      * intros [= <-] _. by repeat split.
      * apply H4.
    + intros id row. rewrite lookup_insert. case_decide as Hd.
      * by intros [= <-].
      * apply H5.
    + intros id row. rewrite lookup_insert. case_decide as Hd.
      * intros [= <-].
        cbn [Db.amount_sent Db.fee Db.exchange_rate Db.route_type].
        destruct Hrange. split; [done |]. split; [done |]. by split; eexists.
      * apply H6.
  - destruct (post_cancel_state userId id w) as [-> | (t & Ht & Hp & _)];
      [done |].
    destruct (written_status w Hw id t Ht) as [E | [E | E]];
      rewrite E in Hp; discriminate.
  - destruct Hc as [H1 H2 H3 H4 H5 H6].
    destruct (running w Hw id j Hj) as (t & Ht & Hst & Har & Hh & Hco).
    pose proof (H2 id t j Ht Hj) as Hsf.
    pose proof (created_before w Hw id t Ht) as Hcr.
    unfold processTransaction, settle.
    destruct (stages j seen) as [x | m];
      split; cbn [db clock tasks Db.update_transaction Db.transactions
                  Db.with_transactions].
    + intros id' row. rewrite lookup_alter, lookup_delete.
      case_decide as Hd; [| apply H1]. subst id'. rewrite Ht.
      intros [= <-]. cbn [Db.status Db.set_completed].
      split; [done | by intros [? ?]].
    + intros id' row j'. rewrite lookup_alter, lookup_delete.
      case_decide as Hd; [done | apply H2].
    + intros id' row. rewrite lookup_alter.
      case_decide as Hd; [| apply H3]. subst id'. rewrite Ht.
      intros [= <-] _.
      destruct Hsf as (_ & _ & _ & Ha & _ & _ & Hr & Hf & Hj').
      exists (j_exchangeRate j), (xrplTxHash x), (clock w).
      cbn [Db.fee Db.amount_sent Db.exchange_rate Db.amount_received
           Db.xrpl_tx_hash Db.completed_at Db.created_at Db.set_completed].
      rewrite Ha, Hf, Hr, Hj'. repeat (split; [done |]). lia.
    + intros id' row. rewrite lookup_alter.
      case_decide as Hd; [| apply H4]. subst id'. rewrite Ht.
      intros [= <-]. by cbn [Db.status Db.set_completed].
    + intros id' row. rewrite lookup_alter.
      case_decide as Hd; [| apply H5]. subst id'. rewrite Ht.
      by intros [= <-].
    + intros id' row. rewrite lookup_alter.
      case_decide as Hd; [| apply H6]. subst id'. rewrite Ht.
      intros [= <-]. apply (H6 id t Ht).
    + intros id' row. rewrite lookup_alter, lookup_delete.
      case_decide as Hd; [| apply H1]. subst id'. rewrite Ht.
      intros [= <-]. cbn [Db.status Db.set_status_notes].
      split; [done | by intros [? ?]].
    + intros id' row j'. rewrite lookup_alter, lookup_delete.
      case_decide as Hd; [done | apply H2].
    + intros id' row. rewrite lookup_alter.
      case_decide as Hd; [| apply H3]. subst id'. rewrite Ht.
      by intros [= <-].
    + intros id' row. rewrite lookup_alter.
      case_decide as Hd; [| apply H4]. subst id'. rewrite Ht.
      intros [= <-] _. by repeat split.
    + intros id' row. rewrite lookup_alter.
      case_decide as Hd; [| apply H5]. subst id'. rewrite Ht.
      intros [= <-] _. by eexists.
    + intros id' row. rewrite lookup_alter.
      case_decide as Hd; [| apply H6]. subst id'. rewrite Ht.
      intros [= <-]. apply (H6 id t Ht).
  - by apply (consistent_same w).
  - apply (consistent_same w); try done. simpl. lia.
Qed.

Lemma consistent_reachable w : reachable w → consistent w.
Proof.
  intros [now H]. enough (holds w ∧ consistent w) as [_ ?] by done.
  apply (rtc_ind_r (R := step) (λ w, holds w ∧ consistent w) (initial now));
    [| | done].
  - split; [apply holds_initial | apply consistent_initial].
  - intros w1 w2 _ Hs [Hh Hc].
    split; [by eapply holds_step | by eapply consistent_step].
Qed.
End LedgerFacts.

(** * What the rows of a running server look like *)

Section LifeFacts.
Import Tx Spec Invariant Adapters Ledger.

Lemma sample2_reachable : reachable Sample2.w2.
Proof.
  destruct sample_reachable as [now H]. exists now.
  eapply rtc_r; [eapply rtc_r; [exact H |] |].
  - apply (step_tick 2000). lia.
  - apply (step_pipeline (simulated "m1" "R") 1 Sample.job1
             (Db.recipients (db Sample.w1))). reflexivity.
Qed.





(** X13.  Once a pipeline has ended with success, the completed row never
    changes again, whatever requests, other pipelines and clock ticks follow,
    and no pipeline runs for it. *)
Theorem completed_is_final (S : Services) (w w'' : world) (id : Z) (j : job)
    (seen : gmap Z Db.recipient) (x : remittance) :
  reachable w →
  tasks w !! id = Some j →
  stages j seen = Returns x →
  rtc step (processTransaction id j seen w) w'' →
  ∃ t,
    Db.transactions (db w) !! id = Some t
    ∧ Db.transactions (db w'') !! id
      = Some (Db.set_completed "completed" (j_amountReceived j)
                (xrplTxHash x) (clock w) t)
    ∧ tasks w'' !! id = None.
Proof.
  intros Hw Hj Hx Hr. apply holds_reachable in Hw.
  destruct (running w Hw id j Hj) as (t & Ht & _).
  exists t. split; [done |].
  apply (settled_rtc id _ (processTransaction id j seen w) w''); [| | done].
  - eapply holds_step; [exact Hw |]. by apply step_pipeline.
  - split.
    + unfold processTransaction. cbn [db]. rewrite Hx.
      cbn [settle Db.update_transaction Db.transactions Db.with_transactions].
      by rewrite lookup_alter_eq, Ht.
    + cbn [tasks processTransaction]. apply lookup_delete_eq.
Qed.

Lemma completed_is_final_witness :
  ∃ t,
    Db.transactions (db Sample.w1) !! 1%Z = Some t
    ∧ Db.transactions (db (post_cancel 1 1 Sample2.w2).2) !! 1%Z
      = Some (Db.set_completed "completed" (j_amountReceived Sample.job1)
                "XRPL_m1R" 3000 t)
    ∧ tasks (post_cancel 1 1 Sample2.w2).2 !! 1%Z = None.
Proof.
  apply (completed_is_final (simulated "m1" "R")
           {| db := db Sample.w1; rates := rates Sample.w1; clock := 3000;
              tasks := tasks Sample.w1 |}
           (post_cancel 1 1 Sample2.w2).2 1 Sample.job1
           (Db.recipients (db Sample.w1))
           {| xrplTxHash := "XRPL_m1R";
              explorerUrl := "https://testnet.xrpl.org/transactions/XRPL_m1R";
              xrpAmount := convertToXRP 100 "USD";
              targetAmount :=
                convertFromXRP (convertToXRP 100 "USD") "MXN" (17.5 * 0.997);
              ledger_fee := 0.00001 |}).
  - destruct sample_reachable as [now H]. exists now.
    eapply rtc_r; [exact H |]. apply (step_tick 2000). lia.
  - reflexivity.
  - reflexivity.
  - apply rtc_once. apply (step_cancel 1 1).
Defined.



End LifeFacts.

(** * The pipeline with the adapters of the repository *)

Section PipelineFacts.
Import Tx Spec Invariant Adapters Ledger.

Lemma stages_simulated stamp random j seen :
  stages (H := simulated stamp random) j seen
  = match seen !! j_recipientId j with
    | Some r =>
        Returns
          {| xrplTxHash := "XRPL_" +:+ stamp +:+ random;
             explorerUrl :=
               "https://testnet.xrpl.org/transactions/" +:+
               ("XRPL_" +:+ stamp +:+ random);
             xrpAmount := convertToXRP (j_amount j) (j_fromCurrency j);
             targetAmount :=
               convertFromXRP (convertToXRP (j_amount j) (j_fromCurrency j))
                 (j_toCurrency j) (j_exchangeRate j);
             ledger_fee := 0.00001 |}
    | None =>
        Throws "Cannot read properties of undefined (reading 'payout_type')"
    end.
Proof.
  unfold stages. cbn [processPayment processRemittance processPayout simulated
                      bind success negb].
  destruct (seen !! j_recipientId j) as [r |]; [| done].
  by case_bool_decide.
Qed.

(** X16.  With the simulated adapters of the repository a running pipeline can
    fail in one way only: it completes the transaction, with the hash 'XRPL_'
    + timestamp + random suffix, whenever the recipient row was found, and
    otherwise it fails with the TypeError of reading 'payout_type' of
    undefined, which is stored in the notes. *)
Theorem simulated_pipeline_outcome (stamp random : string) (w : world)
    (id : Z) (j : job) (seen : gmap Z Db.recipient) :
  reachable w →
  tasks w !! id = Some j →
  let w' := processTransaction (H := simulated stamp random) id j seen w in
  ∃ t',
    Db.transactions (db w') !! id = Some t'
    ∧ (is_Some (seen !! j_recipientId j) →
       Db.status t' = "completed"
       ∧ Db.xrpl_tx_hash t' = Some ("XRPL_" +:+ stamp +:+ random))
    ∧ (seen !! j_recipientId j = None →
       Db.status t' = "failed"
       ∧ Db.notes t'
         = Some
             "Error: Cannot read properties of undefined (reading 'payout_type')").
Proof.
  intros Hw Hj w'. subst w'. apply holds_reachable in Hw.
  destruct (running w Hw id j Hj) as (t & Ht & _).
  unfold processTransaction. cbn [db]. rewrite stages_simulated.
  destruct (seen !! j_recipientId j) as [r |];
    cbn [settle Db.update_transaction Db.transactions Db.with_transactions];
    rewrite lookup_alter_eq, Ht; eexists; (split; [reflexivity |]);
    split; intros H; try done; by destruct H.
Qed.

Lemma simulated_pipeline_outcome_witness :
  ∃ t',
    Db.transactions
      (db (processTransaction (H := simulated "m1" "R") 1 Sample.job1 ∅
             Sample.w1)) !! 1%Z = Some t'
    ∧ Db.status t' = "failed"
    ∧ Db.notes t'
      = Some
          "Error: Cannot read properties of undefined (reading 'payout_type')".
Proof.
  destruct (simulated_pipeline_outcome "m1" "R" Sample.w1 1 Sample.job1 ∅
              sample_reachable eq_refl) as (t' & H1 & _ & H2).
  exists t'. split; [exact H1 |]. apply H2. reflexivity.
Defined.




End PipelineFacts.

(** * Reading transactions *)

Section ViewFacts.
Import Tx Invariant Adapters Ledger Http Views.

Lemma rows_of_elem userId w r :
  r ∈ rows_of userId w
  ↔ Db.transactions (db w) !! r.1 = Some r.2 ∧ Db.sender_id r.2 = userId.
Proof.
  unfold rows_of. rewrite list_elem_of_filter. destruct r as [id t].
  rewrite elem_of_map_to_list. cbn [fst snd]. tauto.
Qed.

Lemma count_three (l : list (Z * Db.transaction)) :
  (∀ r, r ∈ l →
        Db.status r.2 = "processing" ∨ Db.status r.2 = "completed"
        ∨ Db.status r.2 = "failed") →
  length l
  = (count_status "completed" l + count_status "processing" l
     + count_status "failed" l)%nat.
Proof.
  unfold count_status. induction l as [| r l IH]; intros H; [done |].
  rewrite !filter_cons. cbn [length].
  rewrite IH by (intros r' Hr'; apply H; by right).
  destruct (H r) as [E | [E | E]]; [by left | | |]; rewrite E;
    repeat (case_decide; [try discriminate |]; try done); cbn [length]; lia.
Qed.

Lemma total_range (l : list (Z * Db.transaction)) :
  (∀ r, r ∈ l → 10 <= Db.amount_sent r.2 ∧ Db.amount_sent r.2 <= 10000) →
  inject_Z (Z.of_nat (length l)) * 10
  <= total (λ t, Some (Db.amount_sent t)) l
  ∧ total (λ t, Some (Db.amount_sent t)) l
    <= inject_Z (Z.of_nat (length l)) * 10000.
Proof.
  induction l as [| r l IH]; intros H.
  - cbn [length total foldr]. change (inject_Z (Z.of_nat 0)) with 0.
    split; lra.
  - destruct IH as [IH1 IH2]; [intros r' Hr'; apply H; by right |].
    destruct (H r) as [H1 H2]; [by left |].
    change (total (λ t, Some (Db.amount_sent t)) (r :: l))
      with (Db.amount_sent r.2 + total (λ t, Some (Db.amount_sent t)) l).
    cbn [length]. rewrite Nat2Z.inj_succ. unfold Z.succ. rewrite inject_Z_plus.
    set (n := inject_Z (Z.of_nat (length l))) in *.
    set (s := total (λ t, Some (Db.amount_sent t)) l) in *.
    change (inject_Z 1) with 1. split; lra.
Qed.

(** X19.  In every reachable state the counts of [GET /stats] add up: total =
    completed + processing + failed (no row has another status); the total
    amount sent lies between 10 and 10000 times the number of completed
    transactions; with no completed transaction the average is 0 and the
    estimated savings are '0.00'. *)
Theorem stats_counts_add_up (userId : Z) (w : world) :
  reachable w →
  let s := get_stats userId w in
  totalTransactions s
  = (completedTransactions s + processingTransactions s
     + failedTransactions s)%nat
  ∧ inject_Z (Z.of_nat (completedTransactions s)) * 10 <= totalAmountSent s
  ∧ totalAmountSent s
    <= inject_Z (Z.of_nat (completedTransactions s)) * 10000
  ∧ (completedTransactions s = 0%nat →
     averageTransactionAmount s = 0 ∧ estimatedSavings s = "0.00").
Proof.
  intros Hw s. subst s.
  pose proof (holds_reachable w Hw) as Hh.
  pose proof (consistent_reachable w Hw) as Hc.
  unfold get_stats.
  cbn [totalTransactions completedTransactions processingTransactions
       failedTransactions totalAmountSent averageTransactionAmount
       estimatedSavings].
  split.
  { apply count_three. intros r Hr. apply rows_of_elem in Hr as [Hr _].
    by apply (written_status w Hh r.1). }
  assert (∀ r, r ∈ filter (λ r, Db.status r.2 = "completed")
                     (rows_of userId w) →
               10 <= Db.amount_sent r.2 ∧ Db.amount_sent r.2 <= 10000) as Hr.
  { intros r Hr. apply list_elem_of_filter in Hr as [_ Hr].
    apply rows_of_elem in Hr as [Hr _].
    by destruct (created_columns w Hc r.1 r.2 Hr) as [? _]. }
  destruct (total_range _ Hr) as [H1 H2]. unfold count_status.
  split; [done |]. split; [done |].
  intros Hn. apply nil_length_inv in Hn. rewrite Hn. done.
Qed.

Lemma stats_counts_add_up_witness :
  totalTransactions (get_stats 1 Sample2.w2) = 1%nat
  ∧ totalTransactions (get_stats 1 Sample2.w2)
    = (completedTransactions (get_stats 1 Sample2.w2)
       + processingTransactions (get_stats 1 Sample2.w2)
       + failedTransactions (get_stats 1 Sample2.w2))%nat.
Proof.
  split; [vm_compute; reflexivity |].
  apply (stats_counts_add_up 1 Sample2.w2 sample2_reachable).
Defined.

(** X20.  In every reachable state [GET /:id/status] answers 404 only when the
    user has no transaction with that id; otherwise the status shown is
    processing, completed or failed, it is processing exactly while the
    pipeline runs, a completed transaction is shown with amount received, hash
    and a completion time between creation and now, any other one with all of
    these and the explorer link null, and the fee is always a number and the
    rate is never null. *)
Theorem get_status_shows_result_when_completed (userId id : Z) (w : world) :
  reachable w →
  match get_status userId id w with
  | Refused code error =>
      code = 404%Z
      ∧ ∀ t, Db.transactions (db w) !! id = Some t → Db.sender_id t ≠ userId
  | Ok v =>
      v_id v = id
      ∧ (v_status v = "processing" ∨ v_status v = "completed"
         ∨ v_status v = "failed")
      ∧ (v_status v = "processing" ↔ is_Some (tasks w !! id))
      ∧ (v_status v = "completed" →
         is_Some (v_amountReceived v) ∧ is_Some (v_xrplTxHash v)
         ∧ ∃ finished, v_completedAt v = Some finished
                       ∧ (v_createdAt v ≤ finished ≤ clock w)%Z)
      ∧ (v_status v ≠ "completed" →
         v_amountReceived v = None ∧ v_xrplTxHash v = None
         ∧ v_explorerUrl v = None ∧ v_completedAt v = None)
      ∧ v_fee v ≠ Num.NaN
      ∧ is_Some (v_exchangeRate v)
  end.
Proof.
  intros Hw.
  pose proof (holds_reachable w Hw) as Hh.
  pose proof (consistent_reachable w Hw) as [H1 _ H3 H4 _ H6].
  unfold get_status, Db.owned_transaction.
  destruct (Db.transactions (db w) !! id) as [t |] eqn:Ht.
  2: { split; [done | by intros t]. }
  case_bool_decide as Hs.
  2: { split; [done | by intros t' [= <-]]. }
  cbn [v_id v_status v_amountReceived v_xrplTxHash v_explorerUrl
       v_completedAt v_createdAt v_fee v_exchangeRate].
  split; [done |]. split; [by apply (written_status w Hh id) |].
  split; [by apply H1 |].
  destruct (H6 id t Ht) as (_ & Hf & Hr & _).
  split; [| split; [| split]].
  - intros Hc. destruct (H3 id t Ht Hc)
      as (r & h & d & _ & _ & -> & -> & -> & Hd).
    split; [by eexists |]. split; [by eexists |]. by exists d.
  - intros Hn. destruct (H4 id t Ht Hn) as (-> & -> & ->). done.
  - by rewrite Hf.
  - done.
Qed.

Lemma get_status_shows_result_when_completed_witness :
  match get_status 1 1 Sample2.w2 with
  | Ok v =>
      v_status v = "completed"
      ∧ v_explorerUrl v
        = Some "https://testnet.xrpl.org/transactions/XRPL_m1R"
      ∧ is_Some (v_amountReceived v)
  | Refused _ _ => False
  end.
Proof.
  pose proof (get_status_shows_result_when_completed 1 1 Sample2.w2
                sample2_reachable) as H.
  destruct (get_status 1 1 Sample2.w2) as [v | code error] eqn:E.
  - injection E as <-. destruct H as (_ & _ & _ & H & _).
    split; [reflexivity |]. split; [reflexivity |]. by apply H.
  - discriminate E.
Defined.

Lemma newer_total : Total newer.
Proof. intros a b. unfold newer. lia. Qed.

Lemma newer_trans : Transitive newer.
Proof. intros a b c. unfold newer. lia. Qed.

Lemma selected_elem userId q w r :
  r ∈ selected userId q w
  ↔ r ∈ rows_of userId w
    ∧ ∀ st, truthy_text (status q) = Some st → Db.status r.2 = st.
Proof.
  unfold selected. destruct (truthy_text (status q)) as [st |].
  - rewrite list_elem_of_filter. split.
    + intros [? ?]. split; [done |]. by intros st' [= <-].
    + intros [? H]. split; [by apply H | done].
  - split; [by intros ? | by intros [? _]].
Qed.

(** X21.  [GET /history] returns min(limit, total - offset) transactions
    (limit 50 and offset 0 by default); hasMore is true exactly when offset +
    the number of returned transactions is less than the total; the page is
    ordered by creation time, newest first, and holds only transactions of the
    user with the status asked for. *)
Theorem history_page_and_count (userId : Z) (q : history_query) (w : world) :
  let items := (get_history userId q w).1 in
  let p := (get_history userId q w).2 in
  length items = (p_limit p `min` (p_total p - p_offset p))%nat
  ∧ (hasMore p = true ↔ (p_offset p + length items < p_total p)%nat)
  ∧ items = item w <$> page userId q w
  ∧ StronglySorted newer (page userId q w)
  ∧ ∀ r, r ∈ page userId q w →
         Db.transactions (db w) !! r.1 = Some r.2
         ∧ Db.sender_id r.2 = userId
         ∧ ∀ st, truthy_text (status q) = Some st → Db.status r.2 = st.
Proof.
  intros items p. subst items p. unfold get_history, page.
  cbn [fst snd p_limit p_total p_offset hasMore].
  set (l := default 50%nat (limit q)). set (o := default 0%nat (offset q)).
  set (rows := selected userId q w).
  assert (length (merge_sort newer rows) = length rows) as Hlen.
  { apply Permutation_length, merge_sort_Permutation. }
  split; [by rewrite length_fmap, length_take, length_drop, Hlen |].
  split.
  { rewrite length_fmap, length_take, length_drop, Hlen.
    rewrite Nat.ltb_lt. lia. }
  split; [done |].
  pose proof newer_total as Htotal. pose proof newer_trans as Htrans.
  assert (StronglySorted newer (merge_sort newer rows)) as Hs
      by apply (StronglySorted_merge_sort newer).
  split.
  - rewrite <- (take_drop o (merge_sort newer rows)) in Hs.
    apply StronglySorted_app_1_r in Hs.
    rewrite <- (take_drop l (drop o (merge_sort newer rows))) in Hs.
    by apply StronglySorted_app_1_l in Hs.
  - intros r Hr.
    assert (r ∈ rows) as Hin.
    { rewrite <- (merge_sort_Permutation newer rows).
      by apply (subseteq_drop o), (subseteq_take l). }
    apply selected_elem in Hin as [Hin Hst].
    apply rows_of_elem in Hin as [? ?]. done.
Qed.

Lemma history_page_and_count_witness :
  hasMore
    (get_history 1 {| limit := Some 0%nat; offset := None; status := None |}
       Sample2.w2).2
  = true.
Proof.
  destruct (history_page_and_count 1
              {| limit := Some 0%nat; offset := None; status := None |}
              Sample2.w2) as (_ & H & _).
  apply H. vm_compute. lia.
Defined.
End ViewFacts.

(** * The rate routes *)

Section RateRouteFacts.
Import Num Rates Http RateRoutes.

Lemma fits_literals_params a b p q path :
  lowered a ≠ "" → lowered b ≠ "" →
  fits [Lit a; Lit b] path = true → fits [Param p; Param q] path = true.
Proof.
  intros Ha Hb. destruct path as [| x [| y [| z path]]]; cbn [fits].
  - done.
  - by rewrite andb_false_r.
  - rewrite !andb_true_r. intros H. apply andb_true_iff in H as [Hx Hy].
    apply String.eqb_eq in Hx, Hy.
    destruct x as [| c x]; [by rewrite Hx in Ha |].
    destruct y as [| d y]; [by rewrite Hy in Hb |]. done.
  - by rewrite !andb_false_r.
Qed.

Ltac next_route :=
  lazymatch goal with
  | |- context [if ?c then _ else _] => destruct c eqn:?; [| try done]
  end.

(** X22.  In the rate router [GET /:from/:to] is registered before [GET
    /currencies/supported] and [GET /corridors/popular], so no request is ever
    dispatched to these two handlers: their paths are answered by the rate
    handler, with 400 'Invalid currency code. Must be 3 letters (e.g., USD,
    MXN)' and without a call of the rate service. *)
Theorem listed_routes_are_shadowed (m : method) (path : list string) :
  dispatch m path ≠ Some Supported
  ∧ dispatch m path ≠ Some Popular
  ∧ dispatch GET ["currencies"; "supported"] = Some RatePair
  ∧ dispatch GET ["corridors"; "popular"] = Some RatePair
  ∧ ∀ toUpperCase now up later s,
      get_rate toUpperCase "currencies" "supported" now up later s
      = (Refused 400
           "Invalid currency code. Must be 3 letters (e.g., USD, MXN)", s)
      ∧ get_rate toUpperCase "corridors" "popular" now up later s
        = (Refused 400
             "Invalid currency code. Must be 3 letters (e.g., USD, MXN)", s).
Proof.
  assert (∀ a b, lowered a ≠ "" → lowered b ≠ "" →
                 (same_method GET m
                  && fits [Param "from"; Param "to"] path)%bool = false →
                 (same_method GET m && fits [Lit a; Lit b] path)%bool
                 = false) as Hshadow.
  { intros a b Ha Hb H. destruct m; [| done]. cbn [same_method andb] in *.
    destruct (fits [Lit a; Lit b] path) eqn:E; [| done].
    by rewrite (fits_literals_params a b "from" "to" path Ha Hb E) in H. }
  split; [| split; [| split; [done | split; [done | done]]]].
  - unfold dispatch, table. cbn [first_fit].
    destruct (same_method GET m && fits [Param "from"; Param "to"] path)%bool
      eqn:E1; [done |].
    rewrite (Hshadow "currencies" "supported") by done.
    repeat (next_route; try done). 
  - unfold dispatch, table. cbn [first_fit].
    destruct (same_method GET m && fits [Param "from"; Param "to"] path)%bool
      eqn:E1; [done |].
    rewrite (Hshadow "corridors" "popular") by done.
    repeat (next_route; try done).
Qed.




Lemma first_offer_beats_second amount rate :
  0 <= amount → 0 <= rate →
  (amount - (amount * 0.05 + 5)) * rate * 0.96
  <= (amount - amount * 0.01) * rate * 0.997.
Proof.
  intros Ha Hr.
  assert (0 <= rate * (amount * (7503 # 100000) + (48 # 10))) as H.
  { apply Qmult_le_0_compat; lra. }
  lra.
Qed.

Lemma first_offer_beats_third amount rate :
  0 <= amount → 0 <= rate →
  (amount - (amount * 0.015 + 3)) * rate * 0.99
  <= (amount - amount * 0.01) * rate * 0.997.
Proof.
  intros Ha Hr.
  assert (0 <= rate * (amount * (1188 # 100000) + (297 # 100))) as H.
  { apply Qmult_le_0_compat; lra. }
  lra.
Qed.

Lemma offers_head amount rate :
  0 <= amount → 0 <= rate →
  ∃ first rest,
    Routes.sort by_offer (offers amount rate) = first :: rest
    ∧ head (offers amount rate) = Some first.
Proof.
  intros Ha Hr. unfold offers.
  lazymatch goal with
  | |- context [Routes.sort by_offer (?d :: ?l)] =>
      set (first := d); set (others := l)
  end.
  change (Routes.sort by_offer (first :: others))
    with (Routes.place by_offer first (Routes.sort by_offer others)).
  exists first, (Routes.sort by_offer others). split; [| done].
  apply place_head. intros y Hy.
  assert (y ∈ others) as Hin.
  { rewrite <- (sort_perm by_offer others). by apply head_Some_elem_of. }
  unfold by_offer. subst first others. cbn [o_received].
  repeat (apply elem_of_cons in Hin as [-> | Hin]);
    [| | by apply elem_of_nil in Hin];
    cbn [o_received]; rewrite !parseFloat_toFixed2; simpl; apply ltb_false.
  - pose proof (round2_mono _ _ (first_offer_beats_second amount rate Ha Hr)).
    lra.
  - pose proof (round2_mono _ _ (first_offer_beats_third amount rate Ha Hr)).
    lra.
Qed.

(** X24.  When [POST /compare] answers for an amount and a mid-market rate
    that are not negative, its providers are the three offers in some order
    and the first one is 'SwiftBase XRPL'; that offer shows the same amount
    received, fee and rate as the direct route that [POST /compare-routes]
    quotes for the same amount and rate. *)
Theorem post_compare_best_offer (b : Tx.compare_body) (now : Z)
    (up : provider) (later : Z) (s s' : service) (c : comparison) :
  post_compare b now up later s = (Ok c, s') →
  0 <= c_amount c → 0 <= c_midMarketRate c →
  providers c ≡ₚ offers (c_amount c) (c_midMarketRate c)
  ∧ ∃ first rest,
      providers c = first :: rest
      ∧ o_provider first = "SwiftBase XRPL"
      ∧ ∀ r, head (Routes.routes (c_amount c) (c_midMarketRate c)) = Some r →
             o_received first = Routes.amountReceived r
             ∧ o_fee first = Routes.fee r
             ∧ o_rate first = Routes.exchangeRate r.
Proof.
  unfold post_compare.
  destruct (Tx.truthy_num (Tx.cmp_amount b)) as [amount |]; [| done].
  destruct (Tx.truthy_text (Tx.cmp_fromCurrency b)) as [f |]; [| done].
  destruct (Tx.truthy_text (Tx.cmp_toCurrency b)) as [t |]; [| done].
  destruct (getRate f t now up later s) as [rateData s1].
  intros H. injection H as <- <-. intros Ha Hr.
  change (0 <= amount) in Ha. change (0 <= Rates.rate rateData) in Hr.
  change (Routes.sort by_offer (offers amount (Rates.rate rateData))
          ≡ₚ offers amount (Rates.rate rateData)
          ∧ ∃ first rest,
              Routes.sort by_offer (offers amount (Rates.rate rateData))
              = first :: rest
              ∧ o_provider first = "SwiftBase XRPL"
              ∧ ∀ r, head (Routes.routes amount (Rates.rate rateData))
                     = Some r →
                     o_received first = Routes.amountReceived r
                     ∧ o_fee first = Routes.fee r
                     ∧ o_rate first = Routes.exchangeRate r).
  split; [apply sort_perm |].
  destruct (offers_head amount (Rates.rate rateData) Ha Hr)
    as (first & rest & Hs & Hf).
  exists first, rest. split; [done |].
  injection Hf as <-. split; [done |]. by intros r [= <-].
Qed.

Lemma post_compare_best_offer_witness :
  ∃ first rest,
    providers
      {| c_amount := 100; c_fromCurrency := "USD"; c_toCurrency := "MXN";
         c_midMarketRate := 17.5;
         providers := Routes.sort by_offer (offers 100 17.5) |}
    = first :: rest
    ∧ o_provider first = "SwiftBase XRPL".
Proof.
  destruct (post_compare_best_offer Sample2.quote_request 1000 Sample.down
              1200 new (getRate "USD" "MXN" 1000 Sample.down 1200 new).2
              {| c_amount := 100; c_fromCurrency := "USD";
                 c_toCurrency := "MXN"; c_midMarketRate := 17.5;
                 providers := Routes.sort by_offer (offers 100 17.5) |})
    as [_ (first & rest & H1 & H2 & _)].
  - reflexivity.
  - unfold Qle. simpl. lia.
  - unfold Qle. simpl. lia.
  - by exists first, rest.
Defined.
End RateRouteFacts.

(** * Linking a payment method through the route *)

Section UserFacts.
Import Tx Adapters Linking Http Users.

Lemma insert_payment_method_owner d id userId type :
  Db.owns_payment_method (insert_payment_method d id userId type) id userId
  = true
  ∧ (∀ other, other ≠ userId →
       Db.owns_payment_method (insert_payment_method d id userId type) id
         other = false)
  ∧ (∀ id' u, id' ≠ id →
       Db.owns_payment_method (insert_payment_method d id userId type) id' u
       = Db.owns_payment_method d id' u).
Proof.
  unfold Db.owns_payment_method, insert_payment_method.
  cbn [Db.payment_methods]. split; [| split].
  - rewrite lookup_insert_eq. cbn [Db.pm_user_id].
    by rewrite bool_decide_eq_true_2.
  - intros other Ho. rewrite lookup_insert_eq. cbn [Db.pm_user_id].
    by rewrite bool_decide_eq_false_2.
  - intros id' u Hne. by rewrite lookup_insert_ne.
Qed.

(** X25.  [POST /payment-methods] stores a payment method only when it answers
    with the link result, for type 'bank', or for type 'crypto' with an
    address that passes the wallet check; the stored row belongs to the caller
    and to nobody else, and the ownership of every other payment method is as
    before. A wallet address that fails the check is answered with status 500
    and 'Invalid wallet address' before anything is written; every refusal
    (400 for another type, 500 for an error) leaves the tables unchanged. The
    handler changes payment methods only, which is a step of the system. *)
Theorem post_payment_methods_links_for_the_caller (stamp : string)
    (id userId : Z) (b : method_body) (stored : outcome unit) (w : world) :
  let out := post_payment_methods stamp id userId b stored (db w) in
  match out.1 with
  | Ok _ =>
      stored = Returns ()
      ∧ (mb_type b = Some "bank"
         ∨ mb_type b = Some "crypto"
           ∧ ∃ c, mb_cryptoDetails b = Some c
                  ∧ isValidWalletAddress (wd_address c) = true)
      ∧ Db.owns_payment_method out.2 id userId = true
      ∧ (∀ other, other ≠ userId →
           Db.owns_payment_method out.2 id other = false)
      ∧ (∀ id' u, id' ≠ id →
           Db.owns_payment_method out.2 id' u
           = Db.owns_payment_method (db w) id' u)
  | Refused code _ => (code = 400%Z ∨ code = 500%Z) ∧ out.2 = db w
  end
  ∧ (∀ c, mb_type b = Some "crypto" → mb_cryptoDetails b = Some c →
          isValidWalletAddress (wd_address c) = false →
          out = (Refused 500 "Invalid wallet address", db w))
  ∧ step w {| db := out.2; rates := rates w; clock := clock w;
              tasks := tasks w |}.
Proof.
  intros out. subst out. unfold post_payment_methods.
  split; [| split].
  - case_bool_decide as Hb.
    { destruct (mb_bankDetails b) as [bd |]; [| by split; [right |]].
      destruct stored as [[] | m]; [| by split; [right |]].
      cbn [fst snd]. split; [done |]. split; [by left |].
      apply insert_payment_method_owner. }
    case_bool_decide as Hc; [| by split; [left |]].
    destruct (mb_cryptoDetails b) as [cd |]; [| by split; [right |]].
    unfold linkCryptoWallet.
    destruct (isValidWalletAddress (wd_address cd)) eqn:Ev;
      cbn [negb]; [| by split; [right |]].
    destruct stored as [[] | m]; [| by split; [right |]].
    cbn [fst snd]. split; [done |]. split; [right; split; [done |]; by exists cd |].
    apply insert_payment_method_owner.
  - intros c Ht Hc Hv. rewrite Ht, Hc.
    rewrite bool_decide_eq_false_2 by done.
    rewrite bool_decide_eq_true_2 by done.
    unfold linkCryptoWallet. by rewrite Hv.
  - match goal with
    | |- step w {| db := ?d; rates := _; clock := _; tasks := _ |} =>
        assert (d = {| Db.recipients := Db.recipients (db w);
                       Db.payment_methods := Db.payment_methods d;
                       Db.transactions := Db.transactions (db w);
                       Db.transactions_id_seq :=
                         Db.transactions_id_seq (db w) |}) as ->
    end; [| apply step_users].
    repeat case_bool_decide;
      repeat (match goal with
              | |- context [match ?x with _ => _ end] => destruct x
              end); cbn [fst snd]; try by destruct (db w).
Qed.

Lemma post_payment_methods_links_for_the_caller_witness :
  post_payment_methods "1700000000000" 4 1
    {| mb_type := Some "crypto"; mb_bankDetails := None;
       mb_cryptoDetails :=
         Some {| wd_address := "rShort"; wd_cryptoType := "xrpl" |} |}
    (Returns ()) (db Sample.w1)
  = (Refused 500 "Invalid wallet address", db Sample.w1).
Proof.
  destruct (post_payment_methods_links_for_the_caller "1700000000000" 4 1
              {| mb_type := Some "crypto"; mb_bankDetails := None;
                 mb_cryptoDetails :=
                   Some {| wd_address := "rShort"; wd_cryptoType := "xrpl" |} |}
              (Returns ()) Sample.w1) as (_ & H & _).
  apply (H {| wd_address := "rShort"; wd_cryptoType := "xrpl" |});
    reflexivity.
Defined.
End UserFacts.
